(** * convert.py: batch hard-subbing driver around ffprobe / ffmpeg

    A shallow embedding of [convert.py] and the properties of its decision
    logic: the flag builders, the series-key extractor, the track
    resolution of the first pass and the two-pass run of [main].

    Conventions of the embedding.
    - A Python [str] is the [string] of the bytes of its UTF-8 encoding;
      for a filename these are the bytes of the name.  The order of such
      strings by bytes is the order of the [str]s by code points.
    - A Python [int] is a [Z].
    - Values decoded by [json.loads] are terms of [json]; the script only
      ever compares them with string literals, subscripts them, iterates
      over them and stores them.
    - [chosen_tracks] is a [gmap string track_info].
    - Effects (printing, prompting, subprocesses, exceptions, [sys.exit])
      are threaded through the monad [M]: a computation reads the operator's
      answers, emits a chronological list of events and either returns or
      raises. *)

From stdpp Require Import gmap strings list fin_maps pretty.
From Stdlib Require Import ZArith Ascii String Lia Sorted.

Set Warnings "-register-all".

(** stdpp keeps [simpl] from unfolding string append; the proofs below
    compute with appends of literals. *)
Local Arguments String.append !s1 s2 : simpl nomatch.

Local Open Scope string_scope.
Local Open Scope list_scope.

(** ** Python values *)

(** What [json.loads] can return.  A dict is kept as its item list. *)
Inductive json : Type :=
| JNull
| JBool (b : bool)
| JInt (z : Z)
| JFloat (literal : string)
| JStr (s : string)
| JList (l : list json)
| JDict (items : list (string * json)).

(** [v == "lit"] for a string literal on the right: only an equal [str]
    compares equal. *)
Definition py_eq_str (v : json) (lit : string) : bool :=
  match v with
  | JStr s => String.eqb s lit
  | _ => false
  end.

(** ["{}".format(n)] for an [int]. *)
Definition format_int (n : Z) : string := pretty n.

(** ** FlagBuilder *)

Definition get_audio_flags (codec channels : json) (index : Z) : list string :=
  if py_eq_str codec "aac" && py_eq_str channels "2" then
    ["-c:a"; "copy";
     "-map"; "0:a:" +:+ format_int index]
  else if negb (py_eq_str codec "none") then
    ["-c:a"; "aac";
     "-b:a"; "192k";
     "-ac"; "2";
     "-map"; "0:a:" +:+ format_int index]
  else [].

Definition scale_stage : string := "[burned]scale=-16:min(720\,ih)[v]".

Definition get_filter_flags (codec : json) (index : Z) (subfile : string)
  : list string :=
  let subfilter :=
    if py_eq_str codec "dvd_subtitle" || py_eq_str codec "hdmv_pgs_subtitle" then
      "[0:v][0:s:" +:+ format_int index +:+ "]overlay[burned];"
    else if negb (py_eq_str codec "none") then
      "[0:v]subtitles='" +:+ subfile +:+ "':si=" +:+ format_int index +:+ "[burned];"
    else
      "[0:v]null[burned];" in
  ["-filter_complex"; subfilter +:+ scale_stage;
   "-map"; "[v]"].

(** The two shapes of audio flags. *)
Definition stream_copy_flags (i : Z) : list string :=
  ["-c:a"; "copy"; "-map"; "0:a:" +:+ format_int i].

Definition reencode_flags (i : Z) : list string :=
  ["-c:a"; "aac"; "-b:a"; "192k"; "-ac"; "2"; "-map"; "0:a:" +:+ format_int i].

(** ** KeyExtractor

    [re.match(r"\[(.+)\] (.+) - (\d+) .*", file)]: the pattern is a
    sequence of single characters, capturing greedy repetitions [(a+)] and
    one greedy [a*].  Matching is anchored at the start of the string only,
    and a greedy repetition takes as much as it can and gives characters
    back one at a time until the rest of the pattern matches.

    The string is the UTF-8 encoding of the filename, so a character takes
    one to four bytes.  [\d] is matched against a whole character, since
    on a [str] it accepts every decimal digit of Unicode.  The literals of
    the pattern and the newline that [.] excludes are below 128, and such
    a byte occurs in UTF-8 only as a character of its own: [.] and the
    literals are therefore matched byte by byte, and what [.+] captures
    before a literal is made of whole characters. *)

Inductive atom : Type :=
| Lit (c : ascii)    (* that character, of one byte *)
| Dot                (* [.]: any byte but the newline *)
| Digit.             (* [\d]: a decimal digit, of one byte to four *)

Inductive node : Type :=
| Chr (a : atom)         (* [a] *)
| GroupPlus (a : atom)   (* [(a+)] *)
| Star (a : atom).       (* [a*] *)

Definition newline : ascii := ascii_of_nat 10.

(** The decimal digits (general category Nd), as runs of code points, of
    Unicode 14.0.0, the character database of CPython 3.11: the characters
    [\d] matches in a [str] and [str.isdecimal] accepts. *)
Definition decimal_digits : list (N * N) :=
  [(48, 57); (1632, 1641); (1776, 1785); (1984, 1993); (2406, 2415);
   (2534, 2543); (2662, 2671); (2790, 2799); (2918, 2927); (3046, 3055);
   (3174, 3183); (3302, 3311); (3430, 3439); (3558, 3567); (3664, 3673);
   (3792, 3801); (3872, 3881); (4160, 4169); (4240, 4249); (6112, 6121);
   (6160, 6169); (6470, 6479); (6608, 6617); (6784, 6793); (6800, 6809);
   (6992, 7001); (7088, 7097); (7232, 7241); (7248, 7257); (42528, 42537);
   (43216, 43225); (43264, 43273); (43472, 43481); (43504, 43513);
   (43600, 43609); (44016, 44025); (65296, 65305); (66720, 66729);
   (68912, 68921); (69734, 69743); (69872, 69881); (69942, 69951);
   (70096, 70105); (70384, 70393); (70736, 70745); (70864, 70873);
   (71248, 71257); (71360, 71369); (71472, 71481); (71904, 71913);
   (72016, 72025); (72784, 72793); (73040, 73049); (73120, 73129);
   (92768, 92777); (92864, 92873); (93008, 93017); (120782, 120831);
   (123200, 123209); (123632, 123641); (125264, 125273); (130032, 130041)]%N.

Definition is_decimal (code_point : N) : bool :=
  existsb (fun r => (fst r <=? code_point)%N && (code_point <=? snd r)%N)
          decimal_digits.

Definition byte_value (c : ascii) : N := N_of_ascii c.

(** A byte [10xxxxxx], which continues a character. *)
Definition continuation (c : ascii) : bool :=
  (128 <=? byte_value c)%N && (byte_value c <? 192)%N.

(** The six payload bits of a continuation byte. *)
Definition payload (c : ascii) : N := (byte_value c - 128)%N.

(** The character at the start of [s]: its code point and the number of
    bytes it takes.  The lead byte gives the length; a code point is
    encoded in the fewest bytes that hold it. *)
Definition code_point_at (s : string) : option (N * nat) :=
  match s with
  | EmptyString => None
  | String b1 s1 =>
      let lead := byte_value b1 in
      if (lead <? 128)%N then Some (lead, 1%nat)
      else if (lead <? 192)%N then None
      else if (lead <? 224)%N then
        match s1 with
        | String b2 _ =>
            let cp := ((lead - 192) * 64 + payload b2)%N in
            if continuation b2 && (128 <=? cp)%N then Some (cp, 2%nat) else None
        | _ => None
        end
      else if (lead <? 240)%N then
        match s1 with
        | String b2 (String b3 _) =>
            let cp := ((lead - 224) * 4096 + payload b2 * 64 + payload b3)%N in
            if continuation b2 && continuation b3 && (2048 <=? cp)%N
            then Some (cp, 3%nat) else None
        | _ => None
        end
      else if (lead <? 248)%N then
        match s1 with
        | String b2 (String b3 (String b4 _)) =>
            let cp := ((lead - 240) * 262144 + payload b2 * 4096
                       + payload b3 * 64 + payload b4)%N in
            if continuation b2 && continuation b3 && continuation b4
               && (65536 <=? cp)%N && (cp <=? 1114111)%N
            then Some (cp, 4%nat) else None
        | _ => None
        end
      else None
  end.

(** The number of bytes the atom takes at the start of [s], if it matches
    there. *)
Definition atom_width (a : atom) (s : string) : option nat :=
  match a with
  | Lit c' =>
      match s with
      | String c _ => if Ascii.eqb c c' then Some 1%nat else None
      | EmptyString => None
      end
  | Dot =>
      match s with
      | String c _ => if Ascii.eqb c newline then None else Some 1%nat
      | EmptyString => None
      end
  | Digit =>
      match code_point_at s with
      | Some (cp, w) => if is_decimal cp then Some w else None
      | None => None
      end
  end.

Fixpoint take_bytes (n : nat) (s : string) : string :=
  match n, s with
  | S n', String c s' => String c (take_bytes n' s')
  | _, _ => EmptyString
  end.

Fixpoint drop_bytes (n : nat) (s : string) : string :=
  match n, s with
  | S n', String _ s' => drop_bytes n' s'
  | _, _ => s
  end.

(** Greedy [a*] followed by the continuation [k]: the longest run of
    characters matching [a] after which [k] succeeds; returns the run.
    [fuel] bounds the number of characters taken. *)
Fixpoint greedy_upto {R : Type} (fuel : nat) (a : atom)
    (k : string -> option R) (s : string) : option (string * R) :=
  let stop := match k s with Some r => Some (EmptyString, r) | None => None end in
  match fuel, atom_width a s with
  | S fuel', Some w =>
      match greedy_upto fuel' a k (drop_bytes w s) with
      | Some (u, r) => Some (take_bytes w s +:+ u, r)
      | None => stop
      end
  | _, _ => stop
  end.

(** A character takes a byte at least, so the length of [s] is fuel
    enough. *)
Definition greedy_star {R : Type} (a : atom) (k : string -> option R) (s : string)
  : option (string * R) :=
  greedy_upto (String.length s) a k s.

Definition greedy_plus {R : Type} (a : atom) (k : string -> option R) (s : string)
  : option (string * R) :=
  match atom_width a s with
  | Some w =>
      match greedy_star a k (drop_bytes w s) with
      | Some (u, r) => Some (take_bytes w s +:+ u, r)
      | None => None
      end
  | None => None
  end.

(** The groups captured by a match of [p] at the start of [s]. *)
Fixpoint re_match (p : list node) (s : string) : option (list string) :=
  match p with
  | [] => Some []
  | Chr a :: p' =>
      match atom_width a s with
      | Some w => re_match p' (drop_bytes w s)
      | None => None
      end
  | GroupPlus a :: p' =>
      match greedy_plus a (re_match p') s with
      | Some (u, groups) => Some (u :: groups)
      | None => None
      end
  | Star a :: p' =>
      match greedy_star a (re_match p') s with
      | Some (_, groups) => Some groups
      | None => None
      end
  end.

(** [\[(.+)\] (.+) - (\d+) .*] *)
Definition key_pattern : list node :=
  [Chr (Lit "["); GroupPlus Dot; Chr (Lit "]"); Chr (Lit " ");
   GroupPlus Dot; Chr (Lit " "); Chr (Lit "-"); Chr (Lit " ");
   GroupPlus Digit; Chr (Lit " "); Star Dot].

Definition get_key (file : string) : string :=
  match re_match key_pattern file with
  | Some (_ :: title :: _) => title
  | _ => file
  end.

(** One character matched by [a], and a run of them. *)
Definition atom_char (a : atom) (t : string) : Prop :=
  atom_width a t = Some (String.length t).

Inductive run_of (a : atom) : string -> Prop :=
| run_of_empty : run_of a EmptyString
| run_of_char t u : atom_char a t -> run_of a u -> run_of a (t +:+ u).

(** A filename read as [[group] Title - NN rest]. *)
Definition no_newline (s : string) : Prop :=
  Forall (fun c => c <> newline) (list_ascii_of_string s).

Definition all_digits (s : string) : Prop := run_of Digit s.

Definition episode_name (file group title number rest : string) : Prop :=
  file = "[" +:+ group +:+ "] " +:+ title +:+ " - " +:+ number +:+ " " +:+ rest
  /\ group <> EmptyString /\ no_newline group
  /\ title <> EmptyString /\ no_newline title
  /\ number <> EmptyString /\ all_digits number.

(** ** Paths, globbing and sorting (the library calls of [main]) *)

(** [p.rfind(c)]: the index of the last occurrence of [c], if any. *)
Fixpoint rfind (c : ascii) (p : string) : option nat :=
  match p with
  | EmptyString => None
  | String x p' =>
      match rfind c p' with
      | Some i => Some (S i)
      | None => if Ascii.eqb x c then Some 0%nat else None
      end
  end.

Definition has_non_dot (s : string) : bool :=
  existsb (fun c => negb (Ascii.eqb c ".")) (list_ascii_of_string s).

(** [os.path.splitext] on POSIX: split at the last dot, unless that dot
    comes before the last slash or only dots stand between the last slash
    and it. *)
Definition splitext (p : string) : string * string :=
  let filenameIndex := match rfind "/" p with Some i => S i | None => 0%nat end in
  match rfind "." p with
  | Some dotIndex =>
      if (filenameIndex <=? dotIndex)%nat
         && has_non_dot (substring filenameIndex (dotIndex - filenameIndex) p)
      then (substring 0 dotIndex p, substring dotIndex (String.length p - dotIndex) p)
      else (p, EmptyString)
  | None => (p, EmptyString)
  end.

Definition output_path (file : string) : string :=
  "hardsubbed/" +:+ fst (splitext file) +:+ ".mp4".

Fixpoint ends_with (suffix s : string) : bool :=
  String.eqb s suffix
  || match s with
     | String _ s' => ends_with suffix s'
     | EmptyString => false
     end.

Definition is_hidden (name : string) : bool :=
  match name with
  | String c _ => Ascii.eqb c "."
  | EmptyString => false
  end.

(** [glob("*" + suffix)] over the entries of the working directory: the
    names that are not hidden and end with the suffix, in directory order. *)
Definition glob (entries : list string) (suffix : string) : list string :=
  List.filter (fun name => negb (is_hidden name) && ends_with suffix name) entries.

Fixpoint insert_sorted (x : string) (l : list string) : list string :=
  match l with
  | [] => [x]
  | y :: l' => if String.leb x y then x :: l else y :: insert_sorted x l'
  end.

(** [sorted(l)] for a list of [str]: code-point lexicographic order. *)
Definition sorted (l : list string) : list string :=
  foldr insert_sorted [] l.

(** ** Effects *)

Inductive exn : Type :=
| OSError (msg : string)
| KeyError (key : string)
| IndexError
| TypeError
| AttributeError
| ValueError
| EOFError
| SystemExit (code : option Z).

(** What a run does to the outside, in order.  [StdoutStream] is one line
    of [print_stream_info] with the values it formats; [StderrInvocation]
    is the "encode failed with invocation" line with the argument list it
    formats. *)
Inductive event : Type :=
| Stdout (line : string)
| StdoutStream (index : Z) (title language : json)
| Stderr (line : string)
| StderrInvocation (args : list string)
| Mkdir (path : string)
| Run (args : list string)
| Prompt (msg : string).

Inductive outcome (A : Type) : Type :=
| Ret (a : A)
| Raise (e : exn).
Arguments Ret {A} a.
Arguments Raise {A} e.

(** One operator answer as [int(input(...))] sees it: [Some z] when the
    line reads as the integer [z], [None] when [int] raises ValueError. *)
Definition answer : Type := option Z.

Definition M (A : Type) : Type :=
  list answer -> outcome A * list answer * list event.

Definition ret {A : Type} (a : A) : M A := fun ins => (Ret a, ins, []).

Definition raise {A : Type} (e : exn) : M A := fun ins => (Raise e, ins, []).

Definition bind {A B : Type} (m : M A) (k : A -> M B) : M B :=
  fun ins =>
    match m ins with
    | (Ret a, ins1, tr1) =>
        match k a ins1 with
        | (out, ins2, tr2) => (out, ins2, tr1 ++ tr2)
        end
    | (Raise e, ins1, tr1) => (Raise e, ins1, tr1)
    end.

Definition emit (ev : event) : M unit := fun ins => (Ret tt, ins, [ev]).

Definition lift {A : Type} (o : outcome A) : M A := fun ins => (o, ins, []).

(** [try: m except OSError as error: h error] *)
Definition try_OSError {A : Type} (m : M A) (h : string -> M A) : M A :=
  fun ins =>
    match m ins with
    | (Raise (OSError msg), ins1, tr1) =>
        match h msg ins1 with
        | (out, ins2, tr2) => (out, ins2, tr1 ++ tr2)
        end
    | r => r
    end.

Declare Scope py_scope.
Delimit Scope py_scope with py.
Notation "x <- m ;; k" := (bind m (fun x => k))
  (at level 100, m at next level, right associativity) : py_scope.
Notation "m ;; k" := (bind m (fun _ => k))
  (at level 100, right associativity) : py_scope.
Local Open Scope py_scope.

(** [int(input(msg))] *)
Definition input_int (msg : string) : M Z :=
  fun ins =>
    match ins with
    | [] => (Raise EOFError, [], [Prompt msg])
    | Some z :: rest => (Ret z, rest, [Prompt msg])
    | None :: rest => (Raise ValueError, rest, [Prompt msg])
    end.

Definition sys_exit {A : Type} (code : option Z) : M A := raise (SystemExit code).

(** The exit status the interpreter reports for the outcome of [main]. *)
Definition exit_status (o : outcome unit) : Z :=
  match o with
  | Ret _ => 0
  | Raise (SystemExit None) => 0
  | Raise (SystemExit (Some n)) => n
  | Raise _ => 1
  end.

(** ** Subscripting and iterating decoded JSON *)

Fixpoint assoc (key : string) (items : list (string * json)) : option json :=
  match items with
  | [] => None
  | (k, v) :: items' => if String.eqb k key then Some v else assoc key items'
  end.

(** [v[key]] for a string key. *)
Definition subscript (v : json) (key : string) : outcome json :=
  match v with
  | JDict items =>
      match assoc key items with
      | Some x => Ret x
      | None => Raise (KeyError key)
      end
  | _ => Raise TypeError
  end.

(** [v.get(key, default)] *)
Definition dict_get (v : json) (key : string) (default : json) : outcome json :=
  match v with
  | JDict items =>
      match assoc key items with
      | Some x => Ret x
      | None => Ret default
      end
  | _ => Raise AttributeError
  end.

(** The characters of a [str], each a [str] of its own. *)
Fixpoint split_chars (fuel : nat) (s : string) : list string :=
  match fuel, s with
  | S fuel', String _ _ =>
      let w := match code_point_at s with Some (_, w) => w | None => 1%nat end in
      take_bytes w s :: split_chars fuel' (drop_bytes w s)
  | _, _ => []
  end.

Definition chars (s : string) : list json :=
  map JStr (split_chars (String.length s) s).

(** The elements [for stream in v] runs over. *)
Definition py_iter (v : json) : outcome (list json) :=
  match v with
  | JList l => Ret l
  | JDict items => Ret (map (fun kv => JStr (fst kv)) items)
  | JStr s => Ret (chars s)
  | _ => Raise TypeError
  end.

(** [l[i]] on a list: a negative index counts from the end. *)
Definition list_getitem (l : list json) (i : Z) : outcome json :=
  let n := Z.of_nat (List.length l) in
  let j := if (i <? 0)%Z then (i + n)%Z else i in
  if (j <? 0)%Z || (n <=? j)%Z then Raise IndexError
  else match l !! Z.to_nat j with
       | Some x => Ret x
       | None => Raise IndexError
       end.

(** [[stream for stream in streams if stream["codec_type"] == kind]] *)
Fixpoint streams_of_type (kind : string) (streams : list json) : outcome (list json) :=
  match streams with
  | [] => Ret []
  | stream :: rest =>
      match subscript stream "codec_type" with
      | Ret t =>
          match streams_of_type kind rest with
          | Ret l => Ret (if py_eq_str t kind then stream :: l else l)
          | Raise e => Raise e
          end
      | Raise e => Raise e
      end
  end.

(** ** The outside world *)

(** A finished subprocess.  [stdout] is the captured output as
    [json.loads(stdout.decode("utf-8"))] reads it, [None] when that raises
    (a ValueError in both cases). *)
Record completed : Type := {
  returncode : Z;
  stdout : option json
}.

Record env : Type := {
  (** [os.path.exists] *)
  path_exists : string -> bool;
  (** [os.mkdir]: the OSError message when it fails *)
  mkdir_error : string -> option string;
  (** the entries of the working directory *)
  listdir : list string;
  (** [subprocess.run]: the OSError message when the program cannot be
      launched, the finished process otherwise *)
  subprocess : list string -> string + completed
}.

Definition os_mkdir (e : env) (path : string) : M unit :=
  emit (Mkdir path) ;;
  match mkdir_error e path with
  | Some msg => raise (OSError msg)
  | None => ret tt
  end.

Definition run (e : env) (args : list string) : M completed :=
  emit (Run args) ;;
  match subprocess e args with
  | inl msg => raise (OSError msg)
  | inr results => ret results
  end.

Definition json_loads (text : option json) : M json :=
  match text with
  | Some v => ret v
  | None => raise ValueError
  end.

(** ** TrackResolver *)

Fixpoint print_stream_info_from (stream_index : Z) (streams : list json) : M unit :=
  match streams with
  | [] => ret tt
  | stream :: rest =>
      tags <- lift (subscript stream "tags") ;;
      stream_title <- lift (dict_get tags "title" (JStr "No Title")) ;;
      stream_language <- lift (dict_get tags "language" (JStr "Unknown")) ;;
      emit (StdoutStream stream_index stream_title stream_language) ;;
      print_stream_info_from (stream_index + 1) rest
  end.

Definition print_stream_info (streams : list json) : M unit :=
  print_stream_info_from 0 streams.

(** The value stored under each series key. *)
Record track_info : Type := {
  audio_index : Z;
  subtitle_index : Z;
  audio_codec : json;
  audio_channels : json;
  subtitle_codec : json
}.

Definition ffprobe_args (file : string) : list string :=
  ["ffprobe";
   "-hide_banner";
   "-loglevel"; "error";
   "-i"; file;
   "-show_entries"; "stream=codec_type,codec_name,channels:stream_tags=language,title";
   "-of"; "json"].

(** Probe one file and split its streams into audio and subtitle
    candidates, in the order of the probe output. *)
Definition probe_streams (e : env) (file : string) : M (list json * list json) :=
  results <- run e (ffprobe_args file) ;;
  (if negb (returncode results =? 0)%Z
   then emit (Stderr ("probe failed with code: " +:+ format_int (returncode results)))
   else ret tt) ;;
  stream_data <- json_loads (stdout results) ;;
  streams <- lift (subscript stream_data "streams") ;;
  items <- lift (py_iter streams) ;;
  audio_streams <- lift (streams_of_type "audio" items) ;;
  streams <- lift (subscript stream_data "streams") ;;
  items <- lift (py_iter streams) ;;
  subtitle_streams <- lift (streams_of_type "subtitle" items) ;;
  ret (audio_streams, subtitle_streams).

(** The audio choice: stream index, channels, codec. *)
Definition choose_audio (key : string) (audio_streams : list json) : M (Z * json * json) :=
  if (1 <? List.length audio_streams)%nat then
    emit (Stdout ("Please choose which audio stream to use for " +:+ key +:+ ":")) ;;
    print_stream_info audio_streams ;;
    audio_stream <- input_int "Choice: " ;;
    stream <- lift (list_getitem audio_streams audio_stream) ;;
    audio_channels <- lift (subscript stream "channels") ;;
    stream <- lift (list_getitem audio_streams audio_stream) ;;
    audio_codec <- lift (subscript stream "codec_name") ;;
    ret (audio_stream, audio_channels, audio_codec)
  else if (List.length audio_streams =? 1)%nat then
    let audio_stream := 0%Z in
    stream <- lift (list_getitem audio_streams audio_stream) ;;
    audio_channels <- lift (subscript stream "channels") ;;
    stream <- lift (list_getitem audio_streams audio_stream) ;;
    audio_codec <- lift (subscript stream "codec_name") ;;
    ret (audio_stream, audio_channels, audio_codec)
  else
    ret ((-1)%Z, JInt (-1), JStr "none").

(** The subtitle choice: stream index, codec. *)
Definition choose_subtitle (key : string) (subtitle_streams : list json) : M (Z * json) :=
  if (1 <? List.length subtitle_streams)%nat then
    emit (Stdout ("Please choose which subtitle stream to use for " +:+ key +:+ ":")) ;;
    print_stream_info subtitle_streams ;;
    subtitle_stream <- input_int "Choice: " ;;
    stream <- lift (list_getitem subtitle_streams subtitle_stream) ;;
    subtitle_codec <- lift (subscript stream "codec_name") ;;
    ret (subtitle_stream, subtitle_codec)
  else if (List.length subtitle_streams =? 1)%nat then
    let subtitle_stream := 0%Z in
    stream <- lift (list_getitem subtitle_streams subtitle_stream) ;;
    subtitle_codec <- lift (subscript stream "codec_name") ;;
    ret (subtitle_stream, subtitle_codec)
  else
    ret ((-1)%Z, JStr "none").

(** Both choices for one series, and the record stored for it. *)
Definition choose_tracks (key : string) (audio_streams subtitle_streams : list json)
  : M track_info :=
  a <- choose_audio key audio_streams ;;
  s <- choose_subtitle key subtitle_streams ;;
  ret {| audio_index := fst (fst a);
         subtitle_index := fst s;
         audio_codec := snd a;
         audio_channels := snd (fst a);
         subtitle_codec := snd s |}.

(** The body of the first loop for a file whose key is not yet chosen. *)
Definition resolve_tracks (e : env) (key file : string) : M track_info :=
  candidates <- probe_streams e file ;;
  choose_tracks key (fst candidates) (snd candidates).

(** ** BatchPlanner *)

(** First loop: choose the streams of every series once. *)
Fixpoint first_pass (e : env) (file_list : list string)
    (chosen_tracks : gmap string track_info) : M (gmap string track_info) :=
  match file_list with
  | [] => ret chosen_tracks
  | file :: rest =>
      let key := get_key file in
      match chosen_tracks !! key with
      | Some _ => first_pass e rest chosen_tracks
      | None =>
          info <- resolve_tracks e key file ;;
          first_pass e rest (<[key := info]> chosen_tracks)
      end
  end.

Definition video_flags : list string :=
  ["-c:v"; "libx264";
   "-profile:v"; "main";
   "-preset:v"; "veryslow";
   "-crf"; "18";
   "-tune"; "animation";
   "-bf"; "16";
   "-aq-mode"; "2";
   "-pix_fmt"; "yuv420p"].

Definition nl : string := String newline EmptyString.

Definition ffmpeg_args (file : string) (audio_flags filter_flags : list string)
  : list string :=
  ["ffmpeg"; "-hide_banner";
   "-loglevel"; "warning";
   "-stats";
   "-i"; file] ++
  video_flags ++
  audio_flags ++
  filter_flags ++
  [output_path file].

(** The body of the second loop. *)
Definition encode_file (e : env) (chosen_tracks : gmap string track_info)
    (file : string) : M unit :=
  emit (Stdout ("Encoding " +:+ file +:+ "...")) ;;
  let key := get_key file in
  track_info <- match chosen_tracks !! key with
                | Some info => ret info
                | None => raise (KeyError key)
                end ;;
  let audio_codec := audio_codec track_info in
  let audio_channels := audio_channels track_info in
  let audio_index := audio_index track_info in
  let audio_flags := get_audio_flags audio_channels audio_codec audio_index in
  let subtitle_codec := subtitle_codec track_info in
  let subtitle_index := subtitle_index track_info in
  let filter_flags := get_filter_flags subtitle_codec subtitle_index file in
  let args := ffmpeg_args file audio_flags filter_flags in
  try_OSError
    (encode_results <- run e args ;;
     (if negb (returncode encode_results =? 0)%Z
      then emit (StderrInvocation args)
      else ret tt) ;;
     emit (Stdout ("Done" +:+ nl)))
    (fun error =>
       emit (Stderr error) ;;
       emit (Stderr ("skipping file" +:+ nl))).

Fixpoint second_pass (e : env) (file_list : list string)
    (chosen_tracks : gmap string track_info) : M unit :=
  match file_list with
  | [] => ret tt
  | file :: rest =>
      encode_file e chosen_tracks file ;;
      second_pass e rest chosen_tracks
  end.

(** [sorted(glob("*.mkv") + glob("*.mp4"))] *)
Definition discover (e : env) : list string :=
  sorted (glob (listdir e) ".mkv" ++ glob (listdir e) ".mp4").

(** The opening of [main]: create the output directory if it is absent. *)
Definition make_output_dir (e : env) : M unit :=
  if negb (path_exists e "hardsubbed") then
    try_OSError (os_mkdir e "hardsubbed")
      (fun error => emit (Stderr error) ;; sys_exit None)
  else ret tt.

Definition main (e : env) : M unit :=
  make_output_dir e ;;
  let file_list := discover e in
  chosen_tracks <- first_pass e file_list ∅ ;;
  second_pass e file_list chosen_tracks.

(** ** Reading traces *)

Definition is_prompt (ev : event) : bool :=
  match ev with Prompt _ => true | _ => false end.

Definition is_probe (ev : event) : bool :=
  match ev with Run ("ffprobe" :: _) => true | _ => false end.

Definition is_encode (ev : event) : bool :=
  match ev with Run ("ffmpeg" :: _) => true | _ => false end.

Definition count (p : event -> bool) (tr : list event) : nat :=
  List.length (List.filter p tr).

(** The argument lists of the encoder invocations of a trace, in order. *)
Fixpoint encodes (tr : list event) : list (list string) :=
  match tr with
  | [] => []
  | Run ("ffmpeg" :: args) :: tr' => ("ffmpeg" :: args) :: encodes tr'
  | _ :: tr' => encodes tr'
  end.

(** ** The TrackSelection invariant of the data model *)
Definition track_invariant (info : track_info) : Prop :=
  ((0 <= audio_index info)%Z <-> audio_codec info <> JStr "none")
  /\ ((0 <= subtitle_index info)%Z <-> subtitle_codec info <> JStr "none").

(** A match of a pattern at the start of a string, whatever the lengths of
    its repetitions: the declarative reading of [re_match]. *)
Inductive matches : list node -> string -> list string -> Prop :=
| matches_nil s :
    matches [] s []
| matches_chr a t s p groups :
    atom_char a t ->
    matches p s groups ->
    matches (Chr a :: p) (t +:+ s) groups
| matches_group a u s p groups :
    u <> EmptyString ->
    run_of a u ->
    matches p s groups ->
    matches (GroupPlus a :: p) (u +:+ s) (u :: groups)
| matches_star a u s p groups :
    run_of a u ->
    matches p s groups ->
    matches (Star a :: p) (u +:+ s) groups.

(** A directory entry is a single path component. *)
Definition no_slash (name : string) : Prop :=
  Forall (fun c => c <> "/"%char) (list_ascii_of_string name).

(** ** Reading results *)

Definition outcome_of {A : Type} (r : outcome A * list answer * list event)
  : outcome A := fst (fst r).

Definition input_of {A : Type} (r : outcome A * list answer * list event)
  : list answer := snd (fst r).

Definition trace_of {A : Type} (r : outcome A * list answer * list event)
  : list event := snd r.

(** Every event a computation emits satisfies [P], however it ends. *)
Definition emits {A : Type} (P : event -> Prop) (m : M A) : Prop :=
  forall ins, Forall P (trace_of (m ins)).

(** A computation that reads no operator answer. *)
Definition keeps_input {A : Type} (m : M A) : Prop :=
  forall ins, input_of (m ins) = ins.

(** A stream whose tags [print_stream_info] can read. *)
Definition has_tags (stream : json) : Prop :=
  exists items, subscript stream "tags" = Ret (JDict items).

(** The test of the two list comprehensions, where it does not raise. *)
Definition has_codec_type (kind : string) (stream : json) : bool :=
  match subscript stream "codec_type" with
  | Ret t => py_eq_str t kind
  | Raise _ => false
  end.

(** Operator answers that are integers from 0 up. *)
Definition nonnegative_answers (ins : list answer) : Prop :=
  Forall (fun a => forall z, a = Some z -> (0 <= z)%Z) ins.

(** Candidates none of which the probe names "none". *)
Definition named_codecs (streams : list json) : Prop :=
  Forall (fun d => subscript d "codec_name" <> Ret (JStr "none")) streams.

(** What each phase may do to the outside. *)
Definition first_pass_event (ev : event) : Prop := is_encode ev = false.

Definition second_pass_event (ev : event) : Prop :=
  is_probe ev = false /\ is_prompt ev = false.

(** ** Sample inputs *)

(** A directory holding both containers of one stem. *)
Definition two_containers : env :=
  {| path_exists := fun _ => true;
     mkdir_error := fun _ => None;
     listdir := ["X.mp4"; "X.mkv"];
     subprocess := fun _ => inl "ffmpeg: not found" |}.

(** A probed file with a video stream, two audio streams and two subtitle
    streams. *)
Definition stream_video : json :=
  JDict [("codec_name", JStr "h264"); ("codec_type", JStr "video")].

Definition stream_flac : json :=
  JDict [("codec_name", JStr "flac"); ("codec_type", JStr "audio");
         ("channels", JInt 6);
         ("tags", JDict [("language", JStr "jpn"); ("title", JStr "Surround")])].

Definition stream_aac : json :=
  JDict [("codec_name", JStr "aac"); ("codec_type", JStr "audio");
         ("channels", JInt 2);
         ("tags", JDict [("language", JStr "eng")])].

Definition stream_pgs : json :=
  JDict [("codec_name", JStr "hdmv_pgs_subtitle"); ("codec_type", JStr "subtitle");
         ("tags", JDict [("language", JStr "eng")])].

Definition stream_ass : json :=
  JDict [("codec_name", JStr "ass"); ("codec_type", JStr "subtitle");
         ("tags", JDict [("title", JStr "Signs")])].

Definition sample_streams : list json :=
  [stream_video; stream_flac; stream_pgs; stream_aac; stream_ass].

(** What the first pass stores when the operator answers -1 to the audio
    prompt for [stream_flac] and [stream_aac]. *)
Definition negative_choice : track_info :=
  {| audio_index := -1;
     subtitle_index := -1;
     audio_codec := JStr "aac";
     audio_channels := JInt 2;
     subtitle_codec := JStr "none" |}.

(** A working directory in which the output directory cannot be made. *)
Definition read_only_directory : env :=
  {| path_exists := fun _ => false;
     mkdir_error := fun _ => Some "[Errno 30] Read-only file system: 'hardsubbed'";
     listdir := ["X.mkv"];
     subprocess := fun _ => inl "ffmpeg: not found" |}.

(** A stereo AAC audio stream as the probe reports it, and the output of
    a probe that finds only this stream. *)
Definition stereo_aac : json :=
  JDict [("codec_name", JStr "aac"); ("codec_type", JStr "audio");
         ("channels", JInt 2)].

Definition stereo_aac_only : completed :=
  {| returncode := 0;
     stdout := Some (JDict [("streams", JList [stereo_aac])]) |}.

Definition succeeded : completed := {| returncode := 0; stdout := None |}.

(** What resolution stores for such a file. *)
Definition stereo_aac_choice : track_info :=
  {| audio_index := 0;
     subtitle_index := -1;
     audio_codec := JStr "aac";
     audio_channels := JInt 2;
     subtitle_codec := JStr "none" |}.

(** Two episodes of one series in a directory that already has the output
    directory; every probe finds one stereo AAC stream and every encode
    succeeds. *)
Definition same_series : env :=
  {| path_exists := fun _ => true;
     mkdir_error := fun _ => None;
     listdir := ["[G] Show - 02 [720p].mkv"; "notes.txt"; "[G] Show - 01 [720p].mkv"];
     subprocess := fun args =>
       match args with
       | "ffprobe" :: _ => inr stereo_aac_only
       | _ => inr succeeded
       end |}.

(** One file whose probe exits with status 1 and prints nothing that
    [json.loads] accepts. *)
Definition probe_fails : env :=
  {| path_exists := fun _ => true;
     mkdir_error := fun _ => None;
     listdir := ["broken.mkv"; "fine.mkv"];
     subprocess := fun args =>
       match args with
       | ["ffprobe"; _; _; _; _; "broken.mkv"; _; _; _; _] =>
           inr {| returncode := 1; stdout := None |}
       | "ffprobe" :: _ => inr stereo_aac_only
       | _ => inr succeeded
       end |}.

(** A lone audio stream whose codec name is the string "none", and what the
    first pass stores for it. *)
Definition stream_none : json :=
  JDict [("codec_name", JStr "none"); ("codec_type", JStr "audio");
         ("channels", JInt 2)].

Definition unnamed_choice : track_info :=
  {| audio_index := 0;
     subtitle_index := -1;
     audio_codec := JStr "none";
     audio_channels := JInt 2;
     subtitle_codec := JStr "none" |}.

(** ** Reading the first pass *)

(** The files of a list that open a new series, given the keys already
    chosen: the ones the first loop does not skip. *)
Fixpoint representatives (seen : gset string) (file_list : list string)
  : list string :=
  match file_list with
  | [] => []
  | file :: rest =>
      if decide (get_key file ∈ seen) then representatives seen rest
      else file :: representatives ({[get_key file]} ∪ seen) rest
  end.

(** The argument lists of the probe invocations of a trace, in order. *)
Fixpoint probes (tr : list event) : list (list string) :=
  match tr with
  | [] => []
  | Run args :: tr' =>
      if is_probe (Run args) then args :: probes tr' else probes tr'
  | _ :: tr' => probes tr'
  end.

(** A computation that emits at most [n] events satisfying [p], however it
    ends. *)
Definition at_most {A : Type} (p : event -> bool) (n : nat) (m : M A) : Prop :=
  forall ins, (count p (trace_of (m ins)) <= n)%nat.

(** A computation that reads its answers from the front of the input, at
    most one per prompt. *)
Definition reads_per_prompt {A : Type} (m : M A) : Prop :=
  forall ins, exists used,
    ins = used ++ input_of (m ins)
    /\ (List.length used <= count is_prompt (trace_of (m ins)))%nat.

(** [pat] occurs in [s]. *)
Definition occurs (pat s : string) : Prop :=
  exists u v, s = u +:+ pat +:+ v.

(** Both containers of one stem; every probe finds one stereo AAC stream,
    the encoder exits with status 1 on the first file and cannot be launched
    on the second. *)
Definition flaky_encoder : env :=
  {| path_exists := fun _ => true;
     mkdir_error := fun _ => None;
     listdir := ["X.mp4"; "X.mkv"];
     subprocess := fun args =>
       match args with
       | "ffprobe" :: _ => inr stereo_aac_only
       | [_; _; _; _; _; _; "X.mkv"; _; _; _; _; _; _; _; _; _; _; _; _; _; _; _; _;
          _; _; _; _; _; _; _; _; _; _; _; _; _] =>
           inr {| returncode := 1; stdout := None |}
       | _ => inl "[Errno 2] No such file or directory: 'ffmpeg'"
       end |}.

(** An audio stream that carries no tags at all, as the probe prints a
    stream without metadata. *)
Definition stream_untagged : json :=
  JDict [("codec_name", JStr "ac3"); ("codec_type", JStr "audio");
         ("channels", JInt 6)].

(** [pat in s] *)
Fixpoint contains (pat s : string) : bool :=
  String.prefix pat s
  || match s with
     | String _ s' => contains pat s'
     | EmptyString => false
     end.

(** A string made of whole characters: the UTF-8 encoding of a [str]. *)
Definition character (t : string) : Prop :=
  exists cp, code_point_at t = Some (cp, String.length t).

Inductive utf8 : string -> Prop :=
| utf8_empty : utf8 EmptyString
| utf8_char t u : character t -> utf8 u -> utf8 (t +:+ u).

(** The fullwidth digit [d] (U+FF10 to U+FF19), in UTF-8. *)
Definition fullwidth_digit (d : nat) : string :=
  String (ascii_of_nat 239)
    (String (ascii_of_nat 188) (String (ascii_of_nat (144 + d)) EmptyString)).

(** An episode numbered in fullwidth digits, and one whose title holds a
    number in ASCII digits before it. *)
Definition fullwidth_episode : string :=
  "[G] Show - " +:+ fullwidth_digit 0 +:+ fullwidth_digit 1 +:+ " x.mkv".

Definition fullwidth_second_number : string :=
  "[G] Show - 01 - " +:+ fullwidth_digit 0 +:+ fullwidth_digit 2 +:+ " x.mkv".

(* ================================================================= *)
(** * Properties *)

(** ** FlagBuilder *)

(** C1.  What [get_audio_flags] returns for every stream index [i]: with
    codec "aac" and the integer channel count 2 it returns the AAC
    re-encode flags, bitrate flag included, because the channel count is
    compared with the string "2"; only the string "2" gives the stream-copy
    flags.  Codec "flac" with 6 channels gives the re-encode flags at 192k
    and 2 channels for stream [i], and codec "none" gives no flags for any
    channel count. *)
Theorem get_audio_flags_cases (i : Z) :
  get_audio_flags (JStr "aac") (JInt 2) i
    = ["-c:a"; "aac"; "-b:a"; "192k"; "-ac"; "2"; "-map"; "0:a:" +:+ format_int i]
  /\ In "-b:a" (get_audio_flags (JStr "aac") (JInt 2) i)
  /\ get_audio_flags (JStr "aac") (JStr "2") i
       = ["-c:a"; "copy"; "-map"; "0:a:" +:+ format_int i]
  /\ get_audio_flags (JStr "flac") (JInt 6) i
       = ["-c:a"; "aac"; "-b:a"; "192k"; "-ac"; "2"; "-map"; "0:a:" +:+ format_int i]
  /\ forall channels, get_audio_flags (JStr "none") channels i = [].
Proof.
  repeat split; try reflexivity.
  simpl. tauto.
Qed.

Lemma py_eq_str_JStr (s lit : string) :
  py_eq_str (JStr s) lit = false <-> s <> lit.
Proof. simpl. apply String.eqb_neq. Qed.

(** C4.  For every stream index and source path, [get_filter_flags]
    returns the overlay graph for "hdmv_pgs_subtitle" (which is not the
    text-subtitle graph of any path), the [subtitles] burn-in graph naming
    the source path and the stream index for "subrip" and for every other
    codec string that is neither picture-based nor "none", and the [null]
    graph for "none"; for every codec string the graph ends with the
    scale-to-at-most-720 stage and the flags map the filtered stream [v]. *)
Theorem get_filter_flags_graphs (codec : string) (index : Z) (subfile : string) :
  codec <> "dvd_subtitle" -> codec <> "hdmv_pgs_subtitle" -> codec <> "none" ->
  get_filter_flags (JStr "hdmv_pgs_subtitle") index subfile
    = ["-filter_complex";
       ("[0:v][0:s:" +:+ format_int index +:+ "]overlay[burned];") +:+ scale_stage;
       "-map"; "[v]"]
  /\ (forall path idx,
        get_filter_flags (JStr "hdmv_pgs_subtitle") index subfile
        <> ["-filter_complex";
            ("[0:v]subtitles='" +:+ path +:+ "':si=" +:+ format_int idx
               +:+ "[burned];") +:+ scale_stage;
            "-map"; "[v]"])
  /\ get_filter_flags (JStr "subrip") index subfile
     = ["-filter_complex";
        ("[0:v]subtitles='" +:+ subfile +:+ "':si=" +:+ format_int index
           +:+ "[burned];") +:+ scale_stage;
        "-map"; "[v]"]
  /\ get_filter_flags (JStr codec) index subfile
     = ["-filter_complex";
        ("[0:v]subtitles='" +:+ subfile +:+ "':si=" +:+ format_int index
           +:+ "[burned];") +:+ scale_stage;
        "-map"; "[v]"]
  /\ get_filter_flags (JStr "none") index subfile
     = ["-filter_complex"; "[0:v]null[burned];" +:+ scale_stage; "-map"; "[v]"]
  /\ (forall any : string, exists subfilter,
        get_filter_flags (JStr any) index subfile
        = ["-filter_complex";
           subfilter +:+ "[burned]scale=-16:min(720\,ih)[v]";
           "-map"; "[v]"]).
Proof.
  intros Hdvd Hpgs Hnone.
  split; [reflexivity |].
  split; [intros path idx; simpl; discriminate |].
  split; [reflexivity |].
  split.
  - unfold get_filter_flags.
    apply py_eq_str_JStr in Hdvd, Hpgs, Hnone.
    rewrite Hdvd, Hpgs, Hnone. reflexivity.
  - split; [reflexivity |].
    intros any. unfold get_filter_flags. eexists. reflexivity.
Qed.

Lemma get_filter_flags_graphs_witness :
  get_filter_flags (JStr "ass") 1 "x.mkv"
  = ["-filter_complex";
     "[0:v]subtitles='x.mkv':si=1[burned];[burned]scale=-16:min(720\,ih)[v]";
     "-map"; "[v]"].
Proof.
  refine (proj1 (proj2 (proj2 (proj2
    (get_filter_flags_graphs "ass" 1 "x.mkv" _ _ _))))); discriminate.
Defined.

(** ** Output paths *)

Lemma rfind_absent (c : ascii) (s : string) :
  Forall (fun x => x <> c) (list_ascii_of_string s) -> rfind c s = None.
Proof.
  induction s as [| x s IH]; simpl; intros H; [reflexivity |].
  inversion H as [| ? ? Hx Hs]; subst.
  rewrite (IH Hs).
  destruct (Ascii.eqb_spec x c); congruence.
Qed.

Lemma rfind_last (c : ascii) (u v : string) :
  rfind c v = None -> rfind c (u +:+ String c v) = Some (String.length u).
Proof.
  intros Hv. induction u as [| x u IH]; simpl.
  - rewrite Hv, Ascii.eqb_refl. reflexivity.
  - rewrite IH. reflexivity.
Qed.

Lemma substring_prefix (u v : string) :
  substring 0 (String.length u) (u +:+ v) = u.
Proof.
  induction u as [| x u IH]; simpl.
  - destruct v; reflexivity.
  - rewrite IH. reflexivity.
Qed.

Lemma list_ascii_of_string_app (u v : string) :
  list_ascii_of_string (u +:+ v) = list_ascii_of_string u ++ list_ascii_of_string v.
Proof. induction u as [| x u IH]; simpl; [| rewrite IH]; reflexivity. Qed.

Lemma splitext_stem (x ext : string) :
  no_slash (x +:+ String "." ext) ->
  rfind "." ext = None ->
  is_hidden (x +:+ String "." ext) = false ->
  fst (splitext (x +:+ String "." ext)) = x.
Proof.
  intros Hslash Hext Hhidden.
  unfold splitext.
  rewrite (rfind_absent "/" _ Hslash), (rfind_last "." x ext Hext).
  rewrite Nat.sub_0_r, substring_prefix.
  destruct x as [| c x]; simpl in Hhidden; [discriminate |].
  unfold has_non_dot. simpl. rewrite Hhidden. simpl.
  reflexivity.
Qed.

Lemma In_insert_sorted (x y : string) (l : list string) :
  In y (insert_sorted x l) <-> y = x \/ In y l.
Proof.
  induction l as [| z l IH]; simpl.
  - intuition.
  - destruct (String.leb x z); simpl; rewrite ?IH; intuition.
Qed.

Lemma In_sorted (y : string) (l : list string) : In y (sorted l) <-> In y l.
Proof.
  induction l as [| x l IH]; simpl; [reflexivity |].
  rewrite In_insert_sorted, IH. intuition.
Qed.

Lemma In_discover (e : env) (file : string) :
  In file (discover e) ->
  In file (listdir e) /\ is_hidden file = false.
Proof.
  unfold discover, glob. rewrite In_sorted, in_app_iff, !filter_In.
  intros [[Hin H] | [Hin H]]; apply andb_prop in H as [Hh _];
    apply negb_true_iff in Hh; auto.
Qed.

(** C10.  Two discovered files with the same stem, one ".mkv" and one
    ".mp4", get the same output path, "hardsubbed/" followed by the stem
    and ".mp4", and that path is the last argument of the encoder
    invocation of either file. *)
Theorem same_stem_same_output (e : env) (x : string) :
  (forall name, In name (listdir e) -> no_slash name) ->
  In (x +:+ ".mkv") (discover e) ->
  In (x +:+ ".mp4") (discover e) ->
  x +:+ ".mkv" <> x +:+ ".mp4"
  /\ output_path (x +:+ ".mkv") = "hardsubbed/" +:+ x +:+ ".mp4"
  /\ output_path (x +:+ ".mp4") = "hardsubbed/" +:+ x +:+ ".mp4"
  /\ forall audio filter audio' filter',
       last (ffmpeg_args (x +:+ ".mkv") audio filter)
         = Some ("hardsubbed/" +:+ x +:+ ".mp4")
       /\ last (ffmpeg_args (x +:+ ".mp4") audio' filter')
         = Some ("hardsubbed/" +:+ x +:+ ".mp4").
Proof.
  intros Hnames Hmkv Hmp4.
  apply In_discover in Hmkv as [Hmkv Hmkv'].
  apply In_discover in Hmp4 as [Hmp4 Hmp4'].
  assert (E1 : output_path (x +:+ ".mkv") = "hardsubbed/" +:+ x +:+ ".mp4").
  { unfold output_path. rewrite splitext_stem; auto. }
  assert (E2 : output_path (x +:+ ".mp4") = "hardsubbed/" +:+ x +:+ ".mp4").
  { unfold output_path. rewrite splitext_stem; auto. }
  split; [| split; [exact E1 | split; [exact E2 |]]].
  - intros Heq.
    assert (H := f_equal list_ascii_of_string Heq).
    rewrite !list_ascii_of_string_app in H.
    apply app_inv_head in H. discriminate.
  - intros. unfold ffmpeg_args.
    rewrite !app_assoc, !last_snoc. split; congruence.
Qed.

Lemma same_stem_same_output_witness :
  output_path "X.mkv" = "hardsubbed/X.mp4"
  /\ output_path "X.mp4" = "hardsubbed/X.mp4".
Proof.
  assert (H : "X.mkv" <> "X.mp4"
              /\ output_path "X.mkv" = "hardsubbed/X.mp4"
              /\ output_path "X.mp4" = "hardsubbed/X.mp4"
              /\ forall audio filter audio' filter',
                   last (ffmpeg_args "X.mkv" audio filter) = Some "hardsubbed/X.mp4"
                   /\ last (ffmpeg_args "X.mp4" audio' filter') = Some "hardsubbed/X.mp4").
  { apply (same_stem_same_output two_containers "X").
    - intros name [<- | [<- | []]]; repeat constructor; discriminate.
    - vm_compute. tauto.
    - vm_compute. tauto. }
  split; apply H.
Defined.

(** ** KeyExtractor *)

Lemma append_assoc (u v w : string) : (u +:+ v) +:+ w = u +:+ v +:+ w.
Proof. induction u as [| c u IH]; simpl; [| rewrite IH]; reflexivity. Qed.

Lemma append_nil_r (u : string) : u +:+ EmptyString = u.
Proof. induction u as [| c u IH]; simpl; [| rewrite IH]; reflexivity. Qed.

Lemma length_append (u v : string) :
  String.length (u +:+ v) = (String.length u + String.length v)%nat.
Proof. induction u as [| c u IH]; simpl; [| rewrite IH]; reflexivity. Qed.

Lemma take_drop_bytes (n : nat) (s : string) :
  take_bytes n s +:+ drop_bytes n s = s.
Proof.
  revert s. induction n as [| n IH]; intros [| c s]; simpl; try reflexivity.
  rewrite IH. reflexivity.
Qed.

Lemma length_take_bytes (n : nat) (s : string) :
  (n <= String.length s)%nat -> String.length (take_bytes n s) = n.
Proof.
  revert s. induction n as [| n IH]; intros [| c s] H; simpl in *;
    try reflexivity; try lia.
  rewrite IH; [reflexivity | lia].
Qed.

Lemma length_drop_bytes (n : nat) (s : string) :
  String.length (drop_bytes n s) = (String.length s - n)%nat.
Proof.
  revert s. induction n as [| n IH]; intros [| c s]; simpl; try reflexivity.
  apply IH.
Qed.

Lemma take_bytes_append (t v : string) :
  take_bytes (String.length t) (t +:+ v) = t.
Proof. induction t as [| c t IH]; simpl; [destruct v | rewrite IH]; reflexivity. Qed.

Lemma take_bytes_all (t : string) : take_bytes (String.length t) t = t.
Proof. induction t as [| c t IH]; simpl; [| rewrite IH]; reflexivity. Qed.

Lemma drop_bytes_append (t v : string) :
  drop_bytes (String.length t) (t +:+ v) = v.
Proof. induction t as [| c t IH]; simpl; [reflexivity | exact IH]. Qed.

(** *** Characters *)

(** A character takes between one and four of the bytes that are there,
    and the bytes after it have no part in it. *)
Lemma code_point_at_width (s : string) (cp : N) (w : nat) :
  code_point_at s = Some (cp, w) -> (1 <= w <= String.length s)%nat.
Proof.
  unfold code_point_at. intros H.
  destruct s as [| b1 [| b2 [| b3 [| b4 s]]]]; [discriminate | ..];
    repeat match type of H with
           | context [if ?c then _ else _] => destruct c
           end;
    try discriminate; injection H as <- <-; simpl; lia.
Qed.

Lemma code_point_at_local (s v : string) (cp : N) (w : nat) :
  code_point_at s = Some (cp, w) ->
  code_point_at (take_bytes w s +:+ v) = Some (cp, w).
Proof.
  unfold code_point_at. intros H.
  destruct s as [| b1 [| b2 [| b3 [| b4 s]]]]; [discriminate | ..];
    repeat match type of H with
           | context [if ?c then _ else _] => destruct c eqn:?
           end;
    try discriminate; injection H as <- <-;
    cbn [take_bytes String.append];
    repeat match goal with
           | E : ?c = _ |- context [if ?c then _ else _] => rewrite E
           end;
    reflexivity.
Qed.

Lemma atom_width_bounds (a : atom) (s : string) (w : nat) :
  atom_width a s = Some w -> (1 <= w <= String.length s)%nat.
Proof.
  destruct a as [c' | |]; simpl.
  - destruct s as [| c s]; [discriminate |].
    destruct (Ascii.eqb c c'); [| discriminate].
    intros H; injection H as <-. simpl. lia.
  - destruct s as [| c s]; [discriminate |].
    destruct (Ascii.eqb c newline); [discriminate |].
    intros H; injection H as <-. simpl. lia.
  - destruct (code_point_at s) as [[cp w'] |] eqn:Hcp; [| discriminate].
    destruct (is_decimal cp); [| discriminate].
    intros H; injection H as <-. exact (code_point_at_width _ _ _ Hcp).
Qed.

Lemma atom_width_local (a : atom) (s v : string) (w : nat) :
  atom_width a s = Some w -> atom_width a (take_bytes w s +:+ v) = Some w.
Proof.
  destruct a as [c' | |]; simpl.
  - destruct s as [| c s]; [discriminate |].
    destruct (Ascii.eqb c c') eqn:Hc; [| discriminate].
    intros H; injection H as <-. simpl. rewrite Hc. reflexivity.
  - destruct s as [| c s]; [discriminate |].
    destruct (Ascii.eqb c newline) eqn:Hc; [discriminate |].
    intros H; injection H as <-. simpl. rewrite Hc. reflexivity.
  - destruct (code_point_at s) as [[cp w'] |] eqn:Hcp; [| discriminate].
    destruct (is_decimal cp) eqn:Hd; [| discriminate].
    intros H; injection H as <-.
    rewrite (code_point_at_local _ v _ _ Hcp), Hd. reflexivity.
Qed.

Lemma atom_width_empty (a : atom) : atom_width a EmptyString = None.
Proof. destruct a; reflexivity. Qed.

(** What the atom takes at the start of a string is a character it
    matches; a character it matches is what it takes at the start of any
    string that begins with it. *)
Lemma atom_char_front (a : atom) (s : string) (w : nat) :
  atom_width a s = Some w -> atom_char a (take_bytes w s).
Proof.
  intros H. unfold atom_char.
  pose proof (atom_width_bounds _ _ _ H) as [_ Hw].
  rewrite length_take_bytes by exact Hw.
  rewrite <- (append_nil_r (take_bytes w s)) at 1.
  apply atom_width_local. exact H.
Qed.

Lemma atom_char_width (a : atom) (t v : string) :
  atom_char a t -> atom_width a (t +:+ v) = Some (String.length t).
Proof.
  unfold atom_char. intros H.
  pose proof (atom_width_local a t v _ H) as H'.
  rewrite take_bytes_all in H'. exact H'.
Qed.

Lemma atom_char_nonempty (a : atom) (t : string) :
  atom_char a t -> (1 <= String.length t)%nat.
Proof. intros H. apply (atom_width_bounds a t _ H). Qed.

Lemma atom_char_Lit (c : ascii) (t : string) :
  atom_char (Lit c) t <-> t = String c EmptyString.
Proof.
  unfold atom_char. simpl. split.
  - destruct t as [| c0 t]; [discriminate |].
    destruct (Ascii.eqb_spec c0 c) as [-> |]; [| discriminate].
    intros H. injection H as H. destruct t; [reflexivity | discriminate].
  - intros ->. rewrite Ascii.eqb_refl. reflexivity.
Qed.

Lemma atom_char_Dot (t : string) :
  atom_char Dot t <-> exists c, t = String c EmptyString /\ c <> newline.
Proof.
  unfold atom_char. simpl. split.
  - destruct t as [| c t]; [discriminate |].
    destruct (Ascii.eqb_spec c newline) as [-> | Hc]; [discriminate |].
    intros H. injection H as H. destruct t; [eauto | discriminate].
  - intros (c & -> & Hc).
    destruct (Ascii.eqb_spec c newline); [contradiction | reflexivity].
Qed.

(** *** Runs *)

Lemma run_of_nil (a : atom) : run_of a EmptyString.
Proof. constructor. Qed.

(** A non-empty run begins with the character the atom takes at the start
    of the string. *)
Lemma run_of_front (a : atom) (s u v : string) (w : nat) :
  atom_width a s = Some w ->
  s = u +:+ v -> run_of a u -> u <> EmptyString ->
  exists u', u = take_bytes w s +:+ u' /\ run_of a u' /\ drop_bytes w s = u' +:+ v.
Proof.
  intros Hw Hs Hrun Hne.
  destruct Hrun as [| t u' Ht Hrun]; [contradiction |].
  rewrite append_assoc in Hs. subst s.
  rewrite (atom_char_width _ _ _ Ht) in Hw. injection Hw as <-.
  rewrite take_bytes_append, drop_bytes_append. eauto.
Qed.

Lemma run_of_no_front (a : atom) (s u v : string) :
  atom_width a s = None -> s = u +:+ v -> run_of a u -> u = EmptyString.
Proof.
  intros Hw Hs Hrun.
  destruct Hrun as [| t u' Ht Hrun]; [reflexivity |].
  rewrite append_assoc in Hs. subst s.
  rewrite (atom_char_width _ _ _ Ht) in Hw. discriminate.
Qed.

Lemma run_of_Dot (u : string) : run_of Dot u <-> no_newline u.
Proof.
  unfold no_newline. split.
  - induction 1 as [| t u Ht _ IH]; [constructor |].
    apply atom_char_Dot in Ht as (c & -> & Hc). simpl. constructor; assumption.
  - induction u as [| c u IH]; simpl; intros H; [constructor |].
    inversion H as [| ? ? Hc Hu]; subst.
    apply (run_of_char Dot (String c EmptyString) u); [| auto].
    apply atom_char_Dot. eauto.
Qed.

(** A greedy repetition returns a run after which the continuation
    succeeds, and no longer run has that property; it fails only when the
    continuation fails after every run. *)
Lemma greedy_upto_spec {R : Type} (a : atom) (k : string -> option R) (fuel : nat) :
  forall s, (String.length s <= fuel)%nat ->
  match greedy_upto fuel a k s with
  | Some (u, r) =>
      run_of a u
      /\ (exists v, s = u +:+ v /\ k v = Some r)
      /\ forall u' v', s = u' +:+ v' -> run_of a u' -> k v' <> None ->
                       (String.length u' <= String.length u)%nat
  | None => forall u' v', s = u' +:+ v' -> run_of a u' -> k v' = None
  end.
Proof.
  assert (Hstop : forall s,
    (forall u' v', s = u' +:+ v' -> run_of a u' -> u' <> EmptyString ->
                   k v' = None) ->
    match match k s with Some r => Some (EmptyString, r) | None => None end with
    | Some (u, r) =>
        run_of a u
        /\ (exists v, s = u +:+ v /\ k v = Some r)
        /\ forall u' v', s = u' +:+ v' -> run_of a u' -> k v' <> None ->
                         (String.length u' <= String.length u)%nat
    | None => forall u' v', s = u' +:+ v' -> run_of a u' -> k v' = None
    end).
  { intros s Hlonger. destruct (k s) as [r |] eqn:Hk.
    - split; [constructor |]. split; [exists s; auto |].
      intros u' v' Hs Hrun Hk'.
      destruct u' as [| c u']; [simpl; lia |].
      destruct Hk'. eapply Hlonger; eauto; discriminate.
    - intros u' v' Hs Hrun.
      destruct u' as [| c u']; [simpl in Hs; subst v'; exact Hk |].
      eapply Hlonger; eauto; discriminate. }
  induction fuel as [| fuel IH]; intros s Hlen.
  - destruct s; [| simpl in Hlen; lia].
    cbn [greedy_upto]. apply Hstop.
    intros [| c u'] v' Hs _ Hne; [contradiction | discriminate].
  - cbn [greedy_upto].
    destruct (atom_width a s) as [w |] eqn:Hw.
    + pose proof (atom_width_bounds _ _ _ Hw) as Hbound.
      specialize (IH (drop_bytes w s)).
      rewrite length_drop_bytes in IH. specialize (IH ltac:(lia)).
      destruct (greedy_upto fuel a k (drop_bytes w s)) as [[u r] |].
      * destruct IH as (Hrun & (v & Hs & Hk) & Hmax).
        split; [constructor; [exact (atom_char_front _ _ _ Hw) | exact Hrun] |].
        split.
        { exists v. split; [| exact Hk].
          rewrite append_assoc, <- Hs. symmetry. apply take_drop_bytes. }
        intros u' v' Hs' Hrun' Hk'.
        destruct u' as [| c u']; [simpl; lia |].
        destruct (run_of_front a s _ v' w Hw Hs' Hrun' ltac:(discriminate))
          as (u0 & -> & Hrun0 & Hdrop).
        specialize (Hmax u0 v' Hdrop Hrun0 Hk').
        rewrite !length_append. lia.
      * apply Hstop. intros u' v' Hs' Hrun' Hne.
        destruct (run_of_front a s u' v' w Hw Hs' Hrun' Hne)
          as (u0 & -> & Hrun0 & Hdrop).
        exact (IH u0 v' Hdrop Hrun0).
    + apply Hstop. intros u' v' Hs' Hrun' Hne.
      destruct Hne. exact (run_of_no_front a s u' v' Hw Hs' Hrun').
Qed.

Lemma greedy_star_spec {R : Type} (a : atom) (k : string -> option R) (s : string) :
  match greedy_star a k s with
  | Some (u, r) =>
      run_of a u
      /\ (exists v, s = u +:+ v /\ k v = Some r)
      /\ forall u' v', s = u' +:+ v' -> run_of a u' -> k v' <> None ->
                       (String.length u' <= String.length u)%nat
  | None => forall u' v', s = u' +:+ v' -> run_of a u' -> k v' = None
  end.
Proof. apply greedy_upto_spec. lia. Qed.

Lemma greedy_plus_spec {R : Type} (a : atom) (k : string -> option R) (s : string) :
  match greedy_plus a k s with
  | Some (u, r) =>
      u <> EmptyString /\ run_of a u
      /\ (exists v, s = u +:+ v /\ k v = Some r)
      /\ forall u' v', s = u' +:+ v' -> run_of a u' -> k v' <> None ->
                       (String.length u' <= String.length u)%nat
  | None => forall u' v', u' <> EmptyString -> s = u' +:+ v' -> run_of a u' ->
                          k v' = None
  end.
Proof.
  unfold greedy_plus.
  destruct (atom_width a s) as [w |] eqn:Hw.
  - pose proof (greedy_star_spec a k (drop_bytes w s)) as Hstar.
    pose proof (atom_char_front _ _ _ Hw) as Hchar.
    destruct (greedy_star a k (drop_bytes w s)) as [[u r] |].
    + destruct Hstar as (Hrun & (v & Hs & Hk) & Hmax).
      split.
      { intros H. apply (f_equal String.length) in H.
        rewrite length_append in H.
        pose proof (atom_char_nonempty _ _ Hchar). simpl in H. lia. }
      split; [constructor; assumption |].
      split.
      { exists v. split; [| exact Hk].
        rewrite append_assoc, <- Hs. symmetry. apply take_drop_bytes. }
      intros u' v' Hs' Hrun' Hk'.
      destruct u' as [| c u']; [simpl; lia |].
      destruct (run_of_front a s _ v' w Hw Hs' Hrun' ltac:(discriminate))
        as (u0 & -> & Hrun0 & Hdrop).
      specialize (Hmax u0 v' Hdrop Hrun0 Hk').
      rewrite !length_append. lia.
    + intros u' v' Hne Hs' Hrun'.
      destruct (run_of_front a s u' v' w Hw Hs' Hrun' Hne)
        as (u0 & -> & Hrun0 & Hdrop).
      exact (Hstar u0 v' Hdrop Hrun0).
  - intros u' v' Hne Hs' Hrun'.
    destruct Hne. exact (run_of_no_front a s u' v' Hw Hs' Hrun').
Qed.

(** [re_match] finds a match whenever one exists, and what it returns is a
    match. *)
Lemma re_match_sound (p : list node) :
  forall s groups, re_match p s = Some groups -> matches p s groups.
Proof.
  induction p as [| [a | a | a] p IH]; simpl; intros s groups H.
  - injection H as <-. constructor.
  - destruct (atom_width a s) as [w |] eqn:Hw; [| discriminate].
    rewrite <- (take_drop_bytes w s).
    constructor; [exact (atom_char_front _ _ _ Hw) | auto].
  - pose proof (greedy_plus_spec a (re_match p) s) as Hspec.
    destruct (greedy_plus a (re_match p) s) as [[u gs] |]; [| discriminate].
    injection H as <-.
    destruct Hspec as (Hne & Hrun & (v & -> & Hk) & _).
    constructor; auto.
  - pose proof (greedy_star_spec a (re_match p) s) as Hspec.
    destruct (greedy_star a (re_match p) s) as [[u gs] |]; [| discriminate].
    injection H as <-.
    destruct Hspec as (Hrun & (v & -> & Hk) & _).
    constructor; auto.
Qed.

Lemma re_match_complete (p : list node) (s : string) (groups : list string) :
  matches p s groups -> re_match p s <> None.
Proof.
  induction 1 as [s | a t s p gs Ht _ IH | a u s p gs Hne Hrun _ IH
                  | a u s p gs Hrun _ IH]; simpl.
  - discriminate.
  - rewrite (atom_char_width _ _ _ Ht), drop_bytes_append. exact IH.
  - pose proof (greedy_plus_spec a (re_match p) (u +:+ s)) as Hspec.
    destruct (greedy_plus a (re_match p) (u +:+ s)) as [[u0 gs0] |]; [discriminate |].
    destruct IH. eapply Hspec; eauto.
  - pose proof (greedy_star_spec a (re_match p) (u +:+ s)) as Hspec.
    destruct (greedy_star a (re_match p) (u +:+ s)) as [[u0 gs0] |]; [discriminate |].
    destruct IH. eapply Hspec; eauto.
Qed.

Lemma matches_lit (c : ascii) (p : list node) (s : string) (groups : list string) :
  matches p s groups -> matches (Chr (Lit c) :: p) (String c s) groups.
Proof.
  intros H. apply (matches_chr (Lit c) (String c EmptyString) s); [| exact H].
  apply atom_char_Lit. reflexivity.
Qed.

Ltac invert_matches H :=
  inversion H; subst; clear H;
  repeat match goal with
         | Hc : atom_char (Lit _) _ |- _ => apply atom_char_Lit in Hc; subst
         end.

(** A match of the key pattern is a reading of the filename as
    [[group] Title - NN rest], and conversely. *)
Lemma matches_key_pattern (file : string) (groups : list string) :
  matches key_pattern file groups <->
  exists group title number rest,
    groups = [group; title; number] /\ episode_name file group title number rest.
Proof.
  unfold key_pattern, episode_name, all_digits. split.
  - intros H.
    invert_matches H.
    match goal with H : matches (GroupPlus _ :: _) _ _ |- _ => invert_matches H end.
    do 2 match goal with H : matches (Chr _ :: _) _ _ |- _ => invert_matches H end.
    match goal with H : matches (GroupPlus _ :: _) _ _ |- _ => invert_matches H end.
    do 3 match goal with H : matches (Chr _ :: _) _ _ |- _ => invert_matches H end.
    match goal with H : matches (GroupPlus _ :: _) _ _ |- _ => invert_matches H end.
    match goal with H : matches (Chr _ :: _) _ _ |- _ => invert_matches H end.
    match goal with H : matches (Star _ :: _) _ _ |- _ => invert_matches H end.
    match goal with H : matches [] _ _ |- _ => invert_matches H end.
    repeat match goal with H : run_of Dot _ |- _ => apply run_of_Dot in H end.
    do 4 eexists. split; [reflexivity |].
    split; [reflexivity |]. tauto.
  - intros (g & t & d & rest & -> & -> & Hg & Hgn & Ht & Htn & Hd & Hdd).
    apply run_of_Dot in Hgn, Htn.
    apply matches_lit.
    apply matches_group; [assumption .. |].
    do 2 apply matches_lit.
    apply matches_group; [assumption .. |].
    do 3 apply matches_lit.
    apply matches_group; [assumption .. |].
    apply matches_lit.
    apply (matches_star Dot EmptyString rest); [apply run_of_nil | constructor].
Qed.

Lemma re_match_lit (c : ascii) (p : list node) (s : string) :
  re_match (Chr (Lit c) :: p) (String c s) = re_match p s.
Proof. simpl. rewrite Ascii.eqb_refl. reflexivity. Qed.

Lemma re_match_group (a : atom) (p : list node) (s : string) :
  re_match (GroupPlus a :: p) s
  = match greedy_plus a (re_match p) s with
    | Some (u, groups) => Some (u :: groups)
    | None => None
    end.
Proof. reflexivity. Qed.

Lemma append_same_length (u u' v v' : string) :
  String.length u = String.length u' -> u +:+ v = u' +:+ v' -> u = u' /\ v = v'.
Proof.
  revert u'. induction u as [| c u IH]; intros [| c' u'] Hlen H;
    simpl in *; try discriminate; auto.
  injection H as -> H. injection Hlen as Hlen.
  destruct (IH u' Hlen H) as [-> ->]. auto.
Qed.

(** Of all readings of a filename, the pattern captures the one with the
    longest group and, for that group, the longest title. *)
Lemma key_pattern_longest (file g t d g' t' d' rest' : string) :
  re_match key_pattern file = Some [g; t; d] ->
  episode_name file g' t' d' rest' ->
  (String.length g' < String.length g)%nat
  \/ (g' = g /\ (String.length t' <= String.length t)%nat).
Proof.
  intros Hre (Hfile' & Hg' & Hgn' & Ht' & Htn' & Hd' & Hdd').
  apply run_of_Dot in Hgn', Htn'. subst file.
  pose (p2 := [Chr (Lit " "); Chr (Lit "-"); Chr (Lit " ");
               GroupPlus Digit; Chr (Lit " "); Star Dot]).
  pose (p1 := Chr (Lit "]") :: Chr (Lit " ") :: GroupPlus Dot :: p2).
  pose (s0 := g' +:+ "] " +:+ t' +:+ " - " +:+ d' +:+ " " +:+ rest').
  assert (Htail : forall r, matches [Chr (Lit " "); Star Dot] (" " +:+ r) []).
  { intros r. apply matches_lit.
    apply (matches_star Dot EmptyString r); [apply run_of_nil | constructor]. }
  assert (Hm2 : matches p2 (" - " +:+ d' +:+ " " +:+ rest') [d']).
  { subst p2. do 3 apply matches_lit.
    apply matches_group; [assumption .. | apply Htail]. }
  assert (Hm1 : matches p1 ("] " +:+ t' +:+ " - " +:+ d' +:+ " " +:+ rest') [t'; d']).
  { subst p1. do 2 apply matches_lit.
    apply matches_group; assumption. }
  change (re_match (Chr (Lit "[") :: GroupPlus Dot :: p1) (String "[" s0)
          = Some [g; t; d]) in Hre.
  rewrite re_match_lit, re_match_group in Hre.
  pose proof (greedy_plus_spec Dot (re_match p1) s0) as Hspec1.
  destruct (greedy_plus Dot (re_match p1) s0) as [[u1 gs1] |]; [| discriminate].
  injection Hre as -> ->.
  destruct Hspec1 as (_ & _ & (v & Hs0 & Hk1) & Hmax1).
  assert (Hlen : (String.length g' <= String.length g)%nat).
  { apply (Hmax1 g' ("] " +:+ t' +:+ " - " +:+ d' +:+ " " +:+ rest'));
      [reflexivity | assumption |].
    exact (re_match_complete _ _ _ Hm1). }
  destruct (Nat.eq_dec (String.length g') (String.length g)) as [Heq | Hneq];
    [right | left; lia].
  subst s0. destruct (append_same_length _ _ _ _ Heq Hs0) as [-> <-].
  split; [reflexivity |].
  pose (s2 := t' +:+ " - " +:+ d' +:+ " " +:+ rest').
  change (re_match (Chr (Lit "]") :: Chr (Lit " ") :: GroupPlus Dot :: p2)
            (String "]" (String " " s2)) = Some [t; d]) in Hk1.
  rewrite !re_match_lit, re_match_group in Hk1.
  pose proof (greedy_plus_spec Dot (re_match p2) s2) as Hspec2.
  destruct (greedy_plus Dot (re_match p2) s2) as [[u2 gs2] |]; [| discriminate].
  injection Hk1 as -> ->.
  destruct Hspec2 as (_ & _ & _ & Hmax2).
  apply (Hmax2 t' (" - " +:+ d' +:+ " " +:+ rest')); [reflexivity | assumption |].
  exact (re_match_complete _ _ _ Hm2).
Qed.

(** C5.  When the filename can be read as [[group] Title - NN rest], where
    NN is one decimal digit of Unicode or more, the key is the Title of such
    a reading: the one the pattern captures, with the longest group and then
    the longest title.  When it cannot, the key is the filename itself.
    [get_key] is total and returns a string.  The readings of one name
    begin alike, so that their groups, and their titles after one group,
    compare in bytes as they do in characters. *)
Theorem get_key_spec (file : string) :
  ((exists group title number rest, episode_name file group title number rest) ->
   exists group title number rest,
     episode_name file group title number rest
     /\ get_key file = title
     /\ forall group' title' number' rest',
          episode_name file group' title' number' rest' ->
          (String.length group' < String.length group)%nat
          \/ (group' = group
              /\ (String.length title' <= String.length title)%nat))
  /\ ((~ exists group title number rest, episode_name file group title number rest) ->
      get_key file = file).
Proof.
  split.
  - intros (g0 & t0 & d0 & r0 & H0).
    assert (Hm0 : matches key_pattern file [g0; t0; d0])
      by (apply matches_key_pattern; eauto 6).
    apply re_match_complete in Hm0.
    destruct (re_match key_pattern file) as [groups |] eqn:Hre; [| congruence].
    clear Hm0 g0 t0 d0 r0 H0.
    pose proof (re_match_sound _ _ _ Hre) as Hm.
    apply matches_key_pattern in Hm as (g & t & d & rest & -> & Hname).
    exists g, t, d, rest. split; [exact Hname |].
    split; [unfold get_key; rewrite Hre; reflexivity |].
    intros g' t' d' rest' Hname'.
    exact (key_pattern_longest _ _ _ _ _ _ _ _ Hre Hname').
  - intros Hno. unfold get_key.
    destruct (re_match key_pattern file) as [groups |] eqn:Hre; [| reflexivity].
    apply re_match_sound, matches_key_pattern in Hre as (g & t & d & rest & _ & H).
    destruct Hno. eauto 6.
Qed.

(** Readings of concrete names. *)
Ltac digit_run :=
  repeat first
    [ apply run_of_empty
    | apply (run_of_char Digit (fullwidth_digit _)); [reflexivity |]
    | apply (run_of_char Digit (String _ EmptyString)); [reflexivity |] ].

Ltac episode_reading :=
  unfold episode_name, no_newline, all_digits;
  repeat split;
  first [ discriminate | solve [digit_run] | repeat constructor; discriminate ].

Lemma get_key_spec_witness :
  (exists group title number rest,
     episode_name "[G] Show - 01 x.mkv" group title number rest
     /\ get_key "[G] Show - 01 x.mkv" = title
     /\ forall group' title' number' rest',
          episode_name "[G] Show - 01 x.mkv" group' title' number' rest' ->
          (String.length group' < String.length group)%nat
          \/ (group' = group
              /\ (String.length title' <= String.length title)%nat))
  /\ (exists group title number rest,
        episode_name fullwidth_episode group title number rest
        /\ get_key fullwidth_episode = title
        /\ forall group' title' number' rest',
             episode_name fullwidth_episode group' title' number' rest' ->
             (String.length group' < String.length group)%nat
             \/ (group' = group
                 /\ (String.length title' <= String.length title)%nat))
  /\ get_key "A.mkv" = "A.mkv".
Proof.
  split; [| split].
  - apply (proj1 (get_key_spec "[G] Show - 01 x.mkv")).
    exists "G", "Show", "01", "x.mkv". episode_reading.
  - apply (proj1 (get_key_spec fullwidth_episode)).
    exists "G", "Show", (fullwidth_digit 0 +:+ fullwidth_digit 1), "x.mkv".
    episode_reading.
  - apply (proj2 (get_key_spec "A.mkv")).
    intros (g & t & d & r & H & _). discriminate.
Defined.

(** Digits of any script number an episode: a name numbered in fullwidth
    digits has its title as key, and a fullwidth number further on is the
    one the pattern takes. *)
Example get_key_fullwidth_digits :
  episode_name fullwidth_episode "G" "Show"
    (fullwidth_digit 0 +:+ fullwidth_digit 1) "x.mkv"
  /\ get_key fullwidth_episode = "Show"
  /\ get_key fullwidth_second_number = "Show - 01"
  /\ get_key "[G] Show - 0x x.mkv" = "[G] Show - 0x x.mkv".
Proof.
  split; [episode_reading |]. repeat split.
Qed.

(** *** Bytes and characters

    The pattern is matched over bytes where it could be matched over
    characters: in a name made of whole characters, the pieces of every
    reading are made of whole characters, because the literals between them
    are below 128. *)

(** A character is one byte below 128, or bytes from 128 on. *)
Lemma character_bytes (t : string) :
  character t ->
  (exists c, t = String c EmptyString /\ (byte_value c < 128)%N)
  \/ (t <> EmptyString
      /\ Forall (fun c => (128 <= byte_value c)%N) (list_ascii_of_string t)).
Proof.
  intros (cp & Hcp). unfold code_point_at in Hcp.
  remember (String.length t) as w eqn:Hw.
  destruct t as [| b1 [| b2 [| b3 [| b4 [| b5 t]]]]]; [discriminate | ..];
    repeat match type of Hcp with
           | context [if ?c then _ else _] => destruct c eqn:?
           end;
    try discriminate; injection Hcp as <- <-; try discriminate Hw;
    unfold continuation in *;
    repeat match goal with
           | H : _ && _ = true |- _ => apply andb_true_iff in H as [? ?]
           | H : (_ <? _)%N = false |- _ => apply N.ltb_ge in H
           | H : (_ <? _)%N = true |- _ => apply N.ltb_lt in H
           | H : (_ <=? _)%N = true |- _ => apply N.leb_le in H
           end;
    first [ left; eexists; split; [reflexivity | assumption]
          | right; split; [discriminate | simpl; repeat constructor; lia] ].
Qed.

Lemma character_before_low_byte (t s u v : string) (c : ascii) :
  character t -> (byte_value c < 128)%N ->
  t +:+ s = u +:+ String c v ->
  (u = EmptyString /\ t = String c EmptyString /\ s = v)
  \/ exists u', u = t +:+ u' /\ s = u' +:+ String c v.
Proof.
  intros Ht Hc H.
  destruct (character_bytes t Ht) as [(b & -> & Hb) | [Hne Hhigh]].
  - simpl in H. destruct u as [| a u]; simpl in H; injection H as -> H.
    + left. auto.
    + right. exists u. auto.
  - right. clear Ht. revert u H.
    induction t as [| b t IH]; [contradiction |]. intros u H.
    simpl in Hhigh. inversion Hhigh as [| ? ? Hb Hhigh']; subst.
    destruct u as [| a u]; simpl in H; injection H as -> H; [lia |].
    destruct t as [| b' t].
    + exists u. auto.
    + destruct (IH ltac:(discriminate) Hhigh' u H) as (u' & -> & ->).
      exists u'. auto.
Qed.

Lemma utf8_split_at_low_byte (s : string) :
  utf8 s ->
  forall u c v, s = u +:+ String c v -> (byte_value c < 128)%N ->
  utf8 u /\ utf8 v.
Proof.
  induction 1 as [| t s Ht Hs IH]; intros u c v H Hc.
  - destruct u; discriminate.
  - destruct (character_before_low_byte t s u v c Ht Hc H)
      as [(-> & -> & ->) | (u' & -> & Hs')].
    + split; [constructor | exact Hs].
    + destruct (IH u' c v Hs' Hc) as [Hu' Hv].
      split; [constructor; assumption | exact Hv].
Qed.

Lemma episode_name_whole_characters (file group title number rest : string) :
  utf8 file ->
  episode_name file group title number rest ->
  utf8 group /\ utf8 title /\ utf8 number /\ utf8 rest.
Proof.
  intros Hfile (-> & _).
  destruct (utf8_split_at_low_byte _ Hfile EmptyString "[" _ eq_refl eq_refl)
    as [_ H1].
  destruct (utf8_split_at_low_byte _ H1 group "]" _ eq_refl eq_refl)
    as [Hgroup H2].
  destruct (utf8_split_at_low_byte _ H2 EmptyString " " _ eq_refl eq_refl)
    as [_ H3].
  destruct (utf8_split_at_low_byte _ H3 title " " _ eq_refl eq_refl)
    as [Htitle H4].
  destruct (utf8_split_at_low_byte _ H4 EmptyString "-" _ eq_refl eq_refl)
    as [_ H5].
  destruct (utf8_split_at_low_byte _ H5 EmptyString " " _ eq_refl eq_refl)
    as [_ H6].
  destruct (utf8_split_at_low_byte _ H6 number " " _ eq_refl eq_refl)
    as [Hnumber Hrest].
  auto.
Qed.

(** The key of a name made of whole characters is made of whole
    characters. *)
Lemma get_key_whole_characters (file : string) :
  utf8 file -> utf8 (get_key file).
Proof.
  intros Hfile. unfold get_key.
  destruct (re_match key_pattern file) as [groups |] eqn:Hre; [| exact Hfile].
  apply re_match_sound, matches_key_pattern in Hre
    as (g & t & d & rest & -> & Hname).
  apply (episode_name_whole_characters _ _ _ _ _ Hfile Hname).
Qed.

Example fullwidth_episode_whole_characters :
  utf8 fullwidth_episode /\ utf8 (get_key fullwidth_episode).
Proof.
  assert (H : utf8 fullwidth_episode).
  { cbv [fullwidth_episode fullwidth_digit String.append Nat.add].
    repeat first
      [ apply utf8_empty
      | apply (utf8_char (fullwidth_digit _)); [eexists; reflexivity |]
      | apply (utf8_char (String _ EmptyString)); [eexists; reflexivity |] ]. }
  split; [exact H | exact (get_key_whole_characters _ H)].
Qed.

(** ** Effects: what computations emit and read *)

Lemma bind_Ret {A B : Type} (m : M A) (k : A -> M B) ins a ins1 tr1 :
  m ins = (Ret a, ins1, tr1) ->
  bind m k ins
  = (outcome_of (k a ins1), input_of (k a ins1), tr1 ++ trace_of (k a ins1)).
Proof.
  intros H. unfold bind. rewrite H.
  destruct (k a ins1) as [[out ins2] tr2]. reflexivity.
Qed.

Lemma bind_Raise {A B : Type} (m : M A) (k : A -> M B) ins e ins1 tr1 :
  m ins = (Raise e, ins1, tr1) ->
  bind m k ins = (Raise e, ins1, tr1).
Proof. intros H. unfold bind. rewrite H. reflexivity. Qed.

Lemma bind_Ret_inv {A B : Type} (m : M A) (k : A -> M B) ins b ins' tr :
  bind m k ins = (Ret b, ins', tr) ->
  exists a ins1 tr1 tr2,
    m ins = (Ret a, ins1, tr1) /\ k a ins1 = (Ret b, ins', tr2) /\ tr = tr1 ++ tr2.
Proof.
  unfold bind. destruct (m ins) as [[[a | e] ins1] tr1]; [| discriminate].
  destruct (k a ins1) as [[out ins2] tr2] eqn:Hk.
  intros H. injection H as -> -> <-. eauto 8.
Qed.

Lemma surjective_result {A : Type} (r : outcome A * list answer * list event) :
  r = (outcome_of r, input_of r, trace_of r).
Proof. destruct r as [[? ?] ?]. reflexivity. Qed.

Section Emits.
Context {A B : Type} (P : event -> Prop).

Lemma emits_ret (a : A) : emits P (ret a).
Proof. intros ins. constructor. Qed.

Lemma emits_raise (e : exn) : emits P (@raise A e).
Proof. intros ins. constructor. Qed.

Lemma emits_lift (o : outcome A) : emits P (lift o).
Proof. intros ins. constructor. Qed.

Lemma emits_emit (ev : event) : P ev -> emits P (emit ev).
Proof. intros H ins. repeat constructor. exact H. Qed.

Lemma emits_bind (m : M A) (k : A -> M B) :
  emits P m -> (forall a, emits P (k a)) -> emits P (bind m k).
Proof.
  intros Hm Hk ins. specialize (Hm ins). unfold bind.
  destruct (m ins) as [[[a | e] ins1] tr1]; simpl in *; [| exact Hm].
  specialize (Hk a ins1).
  destruct (k a ins1) as [[out ins2] tr2]; simpl in *.
  apply Forall_app; auto.
Qed.

Lemma emits_try_OSError (m : M A) (h : string -> M A) :
  emits P m -> (forall msg, emits P (h msg)) -> emits P (try_OSError m h).
Proof.
  intros Hm Hh ins. specialize (Hm ins). unfold try_OSError.
  destruct (m ins) as [[[a | e] ins1] tr1]; simpl in *; [exact Hm |].
  destruct e; try exact Hm.
  specialize (Hh msg ins1).
  destruct (h msg ins1) as [[out ins2] tr2]; simpl in *.
  apply Forall_app; auto.
Qed.

Lemma emits_input_int (msg : string) : P (Prompt msg) -> emits P (input_int msg).
Proof.
  intros H ins. unfold input_int.
  destruct ins as [| [z |] rest]; repeat constructor; exact H.
Qed.
End Emits.

Section KeepsInput.
Context {A B : Type}.

Lemma keeps_ret (a : A) : keeps_input (ret a).
Proof. intros ins. reflexivity. Qed.

Lemma keeps_raise (e : exn) : keeps_input (@raise A e).
Proof. intros ins. reflexivity. Qed.

Lemma keeps_lift (o : outcome A) : keeps_input (lift o).
Proof. intros ins. reflexivity. Qed.

Lemma keeps_emit (ev : event) : keeps_input (emit ev).
Proof. intros ins. reflexivity. Qed.

Lemma keeps_bind (m : M A) (k : A -> M B) :
  keeps_input m -> (forall a, keeps_input (k a)) -> keeps_input (bind m k).
Proof.
  intros Hm Hk ins. specialize (Hm ins). unfold bind, input_of in *.
  destruct (m ins) as [[[a | e] ins1] tr1]; simpl in *; [| exact Hm].
  specialize (Hk a ins1). unfold input_of in *.
  destruct (k a ins1) as [[out ins2] tr2]; simpl in *. congruence.
Qed.

Lemma keeps_try_OSError (m : M A) (h : string -> M A) :
  keeps_input m -> (forall msg, keeps_input (h msg)) ->
  keeps_input (try_OSError m h).
Proof.
  intros Hm Hh ins. specialize (Hm ins). unfold try_OSError, input_of in *.
  destruct (m ins) as [[[a | e] ins1] tr1]; simpl in *; [exact Hm |].
  destruct e; try exact Hm.
  specialize (Hh msg ins1). unfold input_of in *.
  destruct (h msg ins1) as [[out ins2] tr2]; simpl in *. congruence.
Qed.
End KeepsInput.

Create HintDb py discriminated.
#[local] Hint Resolve emits_ret emits_raise emits_lift emits_emit emits_bind
  emits_try_OSError emits_input_int : py.
#[local] Hint Resolve keeps_ret keeps_raise keeps_lift keeps_emit keeps_bind
  keeps_try_OSError : py.

Ltac effects :=
  repeat first
    [ progress intros
    | apply emits_bind | apply emits_try_OSError
    | apply keeps_bind | apply keeps_try_OSError
    | apply emits_emit | apply emits_input_int
    | apply emits_ret | apply emits_raise | apply emits_lift
    | apply keeps_ret | apply keeps_raise | apply keeps_lift | apply keeps_emit
    | match goal with
      | |- context [if ?b then _ else _] => destruct b
      | |- context [match ?x with _ => _ end] => destruct x
      end ];
  auto with py.

Lemma quiet_trace {A : Type} (m : M A) (ins : list answer) :
  emits (fun _ => False) m -> trace_of (m ins) = [].
Proof.
  intros H. specialize (H ins).
  destruct (trace_of (m ins)); [reflexivity |]. inversion H; contradiction.
Qed.

(** ** TrackResolver *)

Lemma print_stream_info_from_keeps (streams : list json) :
  forall i, keeps_input (print_stream_info_from i streams).
Proof. induction streams as [| stream rest IH]; simpl; effects. Qed.

Lemma print_stream_info_from_emits (P : event -> Prop) (streams : list json) :
  (forall i title language, P (StdoutStream i title language)) ->
  forall i, emits P (print_stream_info_from i streams).
Proof. intros HP. induction streams as [| stream rest IH]; simpl; effects. Qed.

Lemma print_stream_info_from_ok (streams : list json) :
  Forall has_tags streams ->
  forall i ins, outcome_of (print_stream_info_from i streams ins) = Ret tt.
Proof.
  induction 1 as [| stream rest [items Htags] _ IH]; intros i ins; [reflexivity |].
  simpl. unfold bind, lift, emit. rewrite Htags. simpl.
  destruct (assoc "title" items), (assoc "language" items);
    specialize (IH (i + 1)%Z ins);
    destruct (print_stream_info_from (i + 1) rest ins) as [[out ins2] tr2];
    exact IH.
Qed.

(** Printing the candidates succeeds when all have tags; it reads no answer
    and prompts for none. *)
Lemma print_stream_info_result (streams : list json) (ins : list answer) :
  Forall has_tags streams ->
  exists lines,
    print_stream_info streams ins = (Ret tt, ins, lines)
    /\ count is_prompt lines = 0%nat.
Proof.
  intros Htags. unfold print_stream_info.
  exists (trace_of (print_stream_info_from 0 streams ins)). split.
  - rewrite (surjective_result (print_stream_info_from 0 streams ins)) at 1.
    rewrite print_stream_info_from_ok by assumption.
    rewrite print_stream_info_from_keeps. reflexivity.
  - pose proof (print_stream_info_from_emits (fun ev => is_prompt ev = false)
                  streams (fun _ _ _ => eq_refl) 0%Z ins) as H.
    unfold count. induction H as [| ev tr Hev _ IH]; [reflexivity |].
    simpl. rewrite Hev. exact IH.
Qed.

Lemma streams_of_type_filter (kind : string) (streams l : list json) :
  streams_of_type kind streams = Ret l ->
  l = List.filter (has_codec_type kind) streams.
Proof.
  revert l. induction streams as [| stream rest IH]; simpl; intros l H.
  - injection H as <-. reflexivity.
  - destruct (subscript stream "codec_type") as [t | e] eqn:Ht; [| discriminate].
    destruct (streams_of_type kind rest) as [l' | e]; [| discriminate].
    injection H as <-. pose proof (IH l' eq_refl) as Hl'.
    replace (has_codec_type kind stream) with (py_eq_str t kind)
      by (unfold has_codec_type; rewrite Ht; reflexivity).
    destruct (py_eq_str t kind); congruence.
Qed.

Lemma list_getitem_nonneg (l : list json) (k : Z) :
  (0 <= k)%Z ->
  list_getitem l k = match l !! Z.to_nat k with
                     | Some d => Ret d
                     | None => Raise IndexError
                     end.
Proof.
  intros Hk. unfold list_getitem.
  destruct (Z.ltb_spec k 0); [lia |].
  destruct (Z.ltb_spec k 0); [lia |]. simpl.
  destruct (Z.leb_spec (Z.of_nat (List.length l)) k) as [Hge | Hlt]; [| reflexivity].
  rewrite (proj2 (lookup_ge_None l (Z.to_nat k))); [reflexivity | lia].
Qed.

Lemma list_getitem_singleton (d : json) : list_getitem [d] 0 = Ret d.
Proof. reflexivity. Qed.

Lemma count_app (p : event -> bool) (tr1 tr2 : list event) :
  count p (tr1 ++ tr2) = (count p tr1 + count p tr2)%nat.
Proof. unfold count. rewrite List.filter_app, length_app. reflexivity. Qed.

Lemma long_list_test (l : list json) :
  (2 <= List.length l)%nat -> (1 <? List.length l)%nat = true.
Proof. intros H. apply Nat.ltb_lt. lia. Qed.

Lemma choose_audio_prompted (key : string) (audio_streams : list json)
    (k : Z) (rest : list answer) (d ch cn : json) :
  (2 <= List.length audio_streams)%nat ->
  Forall has_tags audio_streams ->
  list_getitem audio_streams k = Ret d ->
  subscript d "channels" = Ret ch ->
  subscript d "codec_name" = Ret cn ->
  exists tr,
    choose_audio key audio_streams (Some k :: rest) = (Ret (k, ch, cn), rest, tr)
    /\ count is_prompt tr = 1%nat.
Proof.
  intros Hlen Htags Hget Hch Hcn.
  destruct (print_stream_info_result audio_streams (Some k :: rest) Htags)
    as (lines & Hprint & Hcount).
  unfold choose_audio. rewrite (long_list_test _ Hlen).
  unfold bind, emit, lift, input_int, ret.
  rewrite Hprint, Hget, Hch, Hcn.
  eexists. split; [reflexivity |].
  rewrite !app_nil_r. simpl.
  change (count is_prompt (lines ++ [Prompt "Choice: "]) = 1%nat).
  rewrite count_app, Hcount. reflexivity.
Qed.

Lemma choose_subtitle_prompted (key : string) (subtitle_streams : list json)
    (k : Z) (rest : list answer) (d cn : json) :
  (2 <= List.length subtitle_streams)%nat ->
  Forall has_tags subtitle_streams ->
  list_getitem subtitle_streams k = Ret d ->
  subscript d "codec_name" = Ret cn ->
  exists tr,
    choose_subtitle key subtitle_streams (Some k :: rest) = (Ret (k, cn), rest, tr)
    /\ count is_prompt tr = 1%nat.
Proof.
  intros Hlen Htags Hget Hcn.
  destruct (print_stream_info_result subtitle_streams (Some k :: rest) Htags)
    as (lines & Hprint & Hcount).
  unfold choose_subtitle. rewrite (long_list_test _ Hlen).
  unfold bind, emit, lift, input_int, ret.
  rewrite Hprint, Hget, Hcn.
  eexists. split; [reflexivity |].
  rewrite !app_nil_r. simpl.
  change (count is_prompt (lines ++ [Prompt "Choice: "]) = 1%nat).
  rewrite count_app, Hcount. reflexivity.
Qed.

Lemma choose_audio_one_prompt (key : string) (audio_streams : list json)
    (ins : list answer) :
  (2 <= List.length audio_streams)%nat ->
  Forall has_tags audio_streams ->
  count is_prompt (trace_of (choose_audio key audio_streams ins)) = 1%nat.
Proof.
  intros Hlen Htags.
  destruct (print_stream_info_result audio_streams ins Htags)
    as (lines & Hprint & Hcount).
  unfold choose_audio. rewrite (long_list_test _ Hlen).
  unfold bind at 1 2 3. unfold emit. rewrite Hprint.
  assert (Htail : forall z rest,
            trace_of (bind (lift (list_getitem audio_streams z))
              (fun stream =>
                 audio_channels <- lift (subscript stream "channels") ;;
                 stream <- lift (list_getitem audio_streams z) ;;
                 audio_codec <- lift (subscript stream "codec_name") ;;
                 ret (z, audio_channels, audio_codec)) rest) = []).
  { intros z rest. apply quiet_trace. effects. }
  destruct ins as [| [z |] rest]; simpl.
  - change (count is_prompt (lines ++ [Prompt "Choice: "]) = 1%nat).
    rewrite count_app, Hcount. reflexivity.
  - specialize (Htail z rest).
    destruct (bind _ _ rest) as [[out ins2] tr2]. simpl in Htail. subst tr2.
    change (count is_prompt (lines ++ [Prompt "Choice: "]) = 1%nat).
    rewrite count_app, Hcount. reflexivity.
  - change (count is_prompt (lines ++ [Prompt "Choice: "]) = 1%nat).
    rewrite count_app, Hcount. reflexivity.
Qed.

Lemma choose_subtitle_one_prompt (key : string) (subtitle_streams : list json)
    (ins : list answer) :
  (2 <= List.length subtitle_streams)%nat ->
  Forall has_tags subtitle_streams ->
  count is_prompt (trace_of (choose_subtitle key subtitle_streams ins)) = 1%nat.
Proof.
  intros Hlen Htags.
  destruct (print_stream_info_result subtitle_streams ins Htags)
    as (lines & Hprint & Hcount).
  unfold choose_subtitle. rewrite (long_list_test _ Hlen).
  unfold bind at 1 2 3. unfold emit. rewrite Hprint.
  assert (Htail : forall z rest,
            trace_of (bind (lift (list_getitem subtitle_streams z))
              (fun stream =>
                 subtitle_codec <- lift (subscript stream "codec_name") ;;
                 ret (z, subtitle_codec)) rest) = []).
  { intros z rest. apply quiet_trace. effects. }
  destruct ins as [| [z |] rest]; simpl.
  - change (count is_prompt (lines ++ [Prompt "Choice: "]) = 1%nat).
    rewrite count_app, Hcount. reflexivity.
  - specialize (Htail z rest).
    destruct (bind _ _ rest) as [[out ins2] tr2]. simpl in Htail. subst tr2.
    change (count is_prompt (lines ++ [Prompt "Choice: "]) = 1%nat).
    rewrite count_app, Hcount. reflexivity.
  - change (count is_prompt (lines ++ [Prompt "Choice: "]) = 1%nat).
    rewrite count_app, Hcount. reflexivity.
Qed.

Lemma print_stream_info_from_missing_tags (before after : list json)
    (items : list (string * json)) :
  Forall has_tags before ->
  assoc "tags" items = None ->
  forall start ins, exists lines,
    print_stream_info_from start (before ++ JDict items :: after) ins
    = (Raise (KeyError "tags"), ins, lines)
    /\ List.length lines = List.length before
    /\ count is_prompt lines = 0%nat.
Proof.
  intros Hbefore Hitems.
  induction Hbefore as [| stream rest [items0 Htags] _ IH]; intros start ins.
  - exists []. simpl. unfold bind, lift. simpl. rewrite Hitems. auto.
  - destruct (IH (start + 1)%Z ins) as (lines & Hrest & Hlen & Hcount).
    exists (StdoutStream start
              (default (JStr "No Title") (assoc "title" items0))
              (default (JStr "Unknown") (assoc "language" items0)) :: lines).
    split; [| split].
    + simpl. unfold bind, lift, emit. rewrite Htags. simpl.
      destruct (assoc "title" items0), (assoc "language" items0);
        rewrite Hrest; reflexivity.
    + simpl. rewrite Hlen. reflexivity.
    + exact Hcount.
Qed.

(** A candidate without a "tags" entry ends the listing, and with it the
    choice, before the prompt. *)
Lemma choose_audio_untagged (key : string) (before after : list json)
    (items : list (string * json)) (ins : list answer) :
  (2 <= List.length (before ++ JDict items :: after))%nat ->
  Forall has_tags before ->
  assoc "tags" items = None ->
  outcome_of (choose_audio key (before ++ JDict items :: after) ins)
  = Raise (KeyError "tags")
  /\ input_of (choose_audio key (before ++ JDict items :: after) ins) = ins
  /\ count is_prompt
       (trace_of (choose_audio key (before ++ JDict items :: after) ins)) = 0%nat.
Proof.
  intros Hlen Hbefore Hitems.
  destruct (print_stream_info_from_missing_tags before after items
              Hbefore Hitems 0%Z ins) as (lines & Hprint & _ & Hcount).
  unfold choose_audio, print_stream_info. rewrite (long_list_test _ Hlen).
  unfold bind, emit. rewrite Hprint.
  repeat split. exact Hcount.
Qed.

Lemma choose_subtitle_untagged (key : string) (before after : list json)
    (items : list (string * json)) (ins : list answer) :
  (2 <= List.length (before ++ JDict items :: after))%nat ->
  Forall has_tags before ->
  assoc "tags" items = None ->
  outcome_of (choose_subtitle key (before ++ JDict items :: after) ins)
  = Raise (KeyError "tags")
  /\ input_of (choose_subtitle key (before ++ JDict items :: after) ins) = ins
  /\ count is_prompt
       (trace_of (choose_subtitle key (before ++ JDict items :: after) ins)) = 0%nat.
Proof.
  intros Hlen Hbefore Hitems.
  destruct (print_stream_info_from_missing_tags before after items
              Hbefore Hitems 0%Z ins) as (lines & Hprint & _ & Hcount).
  unfold choose_subtitle, print_stream_info. rewrite (long_list_test _ Hlen).
  unfold bind, emit. rewrite Hprint.
  repeat split. exact Hcount.
Qed.

(** C3.  The audio and the subtitle candidates of a probed file are its
    streams of that type in probe order, and each kind is resolved by the
    same three-way rule.  No candidate: index -1 and codec "none" (channels
    -1 for audio), nothing printed, no answer read.  One candidate: index
    0 with the codec (and channels) of that candidate, nothing printed, no
    answer read.  Two or more candidates that all have a "tags" entry:
    exactly one prompt whatever is typed, and the integer typed is the index
    stored and the subscript into the candidate list, which for a
    non-negative integer is the position counted from the first candidate;
    the codec (and channels) are those of the candidate found there.  Two
    or more candidates of which one has no "tags" entry: the listing raises
    KeyError "tags", so that no prompt appears and no answer is read; here
    the code departs from the rule. *)
Theorem track_resolver_cases (key : string)
    (streams audio_streams subtitle_streams : list json) :
  streams_of_type "audio" streams = Ret audio_streams ->
  streams_of_type "subtitle" streams = Ret subtitle_streams ->
  audio_streams = List.filter (has_codec_type "audio") streams
  /\ subtitle_streams = List.filter (has_codec_type "subtitle") streams
  /\ (forall ins,
        audio_streams = [] ->
        choose_audio key audio_streams ins
        = (Ret ((-1)%Z, JInt (-1), JStr "none"), ins, []))
  /\ (forall ins,
        subtitle_streams = [] ->
        choose_subtitle key subtitle_streams ins
        = (Ret ((-1)%Z, JStr "none"), ins, []))
  /\ (forall ins d ch cn,
        audio_streams = [d] ->
        subscript d "channels" = Ret ch ->
        subscript d "codec_name" = Ret cn ->
        choose_audio key audio_streams ins = (Ret (0%Z, ch, cn), ins, []))
  /\ (forall ins d cn,
        subtitle_streams = [d] ->
        subscript d "codec_name" = Ret cn ->
        choose_subtitle key subtitle_streams ins = (Ret (0%Z, cn), ins, []))
  /\ (forall k rest d ch cn,
        (2 <= List.length audio_streams)%nat ->
        Forall has_tags audio_streams ->
        list_getitem audio_streams k = Ret d ->
        subscript d "channels" = Ret ch ->
        subscript d "codec_name" = Ret cn ->
        exists tr,
          choose_audio key audio_streams (Some k :: rest)
          = (Ret (k, ch, cn), rest, tr)
          /\ count is_prompt tr = 1%nat)
  /\ (forall k rest d cn,
        (2 <= List.length subtitle_streams)%nat ->
        Forall has_tags subtitle_streams ->
        list_getitem subtitle_streams k = Ret d ->
        subscript d "codec_name" = Ret cn ->
        exists tr,
          choose_subtitle key subtitle_streams (Some k :: rest)
          = (Ret (k, cn), rest, tr)
          /\ count is_prompt tr = 1%nat)
  /\ (forall ins,
        (2 <= List.length audio_streams)%nat ->
        Forall has_tags audio_streams ->
        count is_prompt (trace_of (choose_audio key audio_streams ins)) = 1%nat)
  /\ (forall ins,
        (2 <= List.length subtitle_streams)%nat ->
        Forall has_tags subtitle_streams ->
        count is_prompt (trace_of (choose_subtitle key subtitle_streams ins)) = 1%nat)
  /\ (forall (l : list json) (k : Z),
        (0 <= k)%Z ->
        list_getitem l k = match l !! Z.to_nat k with
                           | Some d => Ret d
                           | None => Raise IndexError
                           end)
  /\ (forall before after items ins,
        audio_streams = before ++ JDict items :: after ->
        (2 <= List.length audio_streams)%nat ->
        Forall has_tags before ->
        assoc "tags" items = None ->
        outcome_of (choose_audio key audio_streams ins) = Raise (KeyError "tags")
        /\ input_of (choose_audio key audio_streams ins) = ins
        /\ count is_prompt (trace_of (choose_audio key audio_streams ins)) = 0%nat)
  /\ (forall before after items ins,
        subtitle_streams = before ++ JDict items :: after ->
        (2 <= List.length subtitle_streams)%nat ->
        Forall has_tags before ->
        assoc "tags" items = None ->
        outcome_of (choose_subtitle key subtitle_streams ins)
        = Raise (KeyError "tags")
        /\ input_of (choose_subtitle key subtitle_streams ins) = ins
        /\ count is_prompt (trace_of (choose_subtitle key subtitle_streams ins))
           = 0%nat).
Proof.
  intros Haudio Hsub.
  split; [exact (streams_of_type_filter _ _ _ Haudio) |].
  split; [exact (streams_of_type_filter _ _ _ Hsub) |].
  split; [intros ins ->; reflexivity |].
  split; [intros ins ->; reflexivity |].
  split.
  { intros ins d ch cn -> Hch Hcn.
    unfold choose_audio; simpl. unfold bind, lift, ret.
    rewrite list_getitem_singleton, Hch, Hcn. reflexivity. }
  split.
  { intros ins d cn -> Hcn.
    unfold choose_subtitle; simpl. unfold bind, lift, ret.
    rewrite list_getitem_singleton, Hcn. reflexivity. }
  split; [intros; apply choose_audio_prompted with (d := d); assumption |].
  split; [intros; apply choose_subtitle_prompted with (d := d); assumption |].
  split; [intros; apply choose_audio_one_prompt; assumption |].
  split; [intros; apply choose_subtitle_one_prompt; assumption |].
  split; [exact list_getitem_nonneg |].
  split.
  - intros before after items ins -> Hlen Hbefore Hitems.
    apply choose_audio_untagged; assumption.
  - intros before after items ins -> Hlen Hbefore Hitems.
    apply choose_subtitle_untagged; assumption.
Qed.

Lemma track_resolver_cases_witness :
  (exists tr,
     choose_audio "Show" [stream_flac; stream_aac] [Some 1%Z; Some 0%Z]
     = (Ret (1%Z, JInt 2, JStr "aac"), [Some 0%Z], tr)
     /\ count is_prompt tr = 1%nat)
  /\ (exists tr,
        choose_subtitle "Show" [stream_pgs; stream_ass] [Some 0%Z]
        = (Ret (0%Z, JStr "hdmv_pgs_subtitle"), [], tr)
        /\ count is_prompt tr = 1%nat)
  /\ (outcome_of (choose_audio "Show" [stream_untagged; stream_aac] [Some 0%Z])
      = Raise (KeyError "tags")
      /\ input_of (choose_audio "Show" [stream_untagged; stream_aac] [Some 0%Z])
         = [Some 0%Z]
      /\ count is_prompt
           (trace_of (choose_audio "Show" [stream_untagged; stream_aac] [Some 0%Z]))
         = 0%nat).
Proof.
  pose proof (track_resolver_cases "Show" sample_streams
                [stream_flac; stream_aac] [stream_pgs; stream_ass]
                eq_refl eq_refl)
    as (_ & _ & _ & _ & _ & _ & Haudio & Hsub & _).
  pose proof (track_resolver_cases "Show" [stream_untagged; stream_aac]
                [stream_untagged; stream_aac] [] eq_refl eq_refl)
    as (_ & _ & _ & _ & _ & _ & _ & _ & _ & _ & _ & Huntagged & _).
  split; [| split].
  - apply (Haudio 1%Z [Some 0%Z] stream_aac (JInt 2) (JStr "aac"));
      try reflexivity.
    repeat constructor; eexists; reflexivity.
  - apply (Hsub 0%Z [] stream_pgs (JStr "hdmv_pgs_subtitle"));
      try reflexivity.
    repeat constructor; eexists; reflexivity.
  - apply (Huntagged [] [stream_aac]
             [("codec_name", JStr "ac3"); ("codec_type", JStr "audio");
              ("channels", JInt 6)] [Some 0%Z]);
      first [ reflexivity | simpl; lia | constructor ].
Defined.

(** ** The TrackSelection invariant *)

Lemma input_int_Ret (msg : string) ins z ins' tr :
  input_int msg ins = (Ret z, ins', tr) -> ins = Some z :: ins'.
Proof.
  unfold input_int. destruct ins as [| [z' |] rest]; intros H;
    try discriminate.
  injection H as -> -> _. reflexivity.
Qed.

Lemma print_stream_info_Ret (streams : list json) ins ins' tr :
  print_stream_info streams ins = (Ret tt, ins', tr) -> ins' = ins.
Proof.
  intros H. pose proof (print_stream_info_from_keeps streams 0%Z ins) as Hk.
  unfold print_stream_info in H. rewrite H in Hk. exact Hk.
Qed.

Lemma list_getitem_In (l : list json) (i : Z) (d : json) :
  list_getitem l i = Ret d -> In d l.
Proof.
  unfold list_getitem.
  destruct (_ || _); [discriminate |].
  destruct (l !! _) as [x |] eqn:Hx; [| discriminate].
  intros H. injection H as <-.
  apply list_elem_of_In, list_elem_of_lookup. eauto.
Qed.

(** Where a returned audio choice comes from. *)
Lemma choose_audio_inv (key : string) (audio_streams : list json)
    ins i ch cn ins' tr :
  choose_audio key audio_streams ins = (Ret (i, ch, cn), ins', tr) ->
  (audio_streams = [] /\ i = (-1)%Z /\ cn = JStr "none" /\ ins' = ins)
  \/ (exists d, In d audio_streams
                /\ subscript d "codec_name" = Ret cn
                /\ ((i = 0%Z /\ ins' = ins) \/ ins = Some i :: ins')).
Proof.
  unfold choose_audio.
  destruct (1 <? List.length audio_streams)%nat eqn:Hmany.
  - intros H. right.
    apply bind_Ret_inv in H as (? & ins1 & ? & ? & Hemit & H & ?).
    unfold emit in Hemit. injection Hemit as _ <- _.
    apply bind_Ret_inv in H as ([] & ins2 & ? & ? & Hprint & H & ?).
    apply print_stream_info_Ret in Hprint as ->.
    apply bind_Ret_inv in H as (z & ins3 & ? & ? & Hin & H & ?).
    apply input_int_Ret in Hin as ->.
    apply bind_Ret_inv in H as (d1 & ? & ? & ? & Hget1 & H & ?).
    unfold lift in Hget1. injection Hget1 as Hget1 <- _.
    apply bind_Ret_inv in H as (ch1 & ? & ? & ? & Hch & H & ?).
    unfold lift in Hch. injection Hch as Hch <- _.
    apply bind_Ret_inv in H as (d2 & ? & ? & ? & Hget2 & H & ?).
    unfold lift in Hget2. injection Hget2 as Hget2 <- _.
    apply bind_Ret_inv in H as (cn2 & ? & ? & ? & Hcn & H & ?).
    unfold lift in Hcn. injection Hcn as Hcn <- _.
    unfold ret in H. injection H as -> -> -> -> _.
    exists d2. split; [eapply list_getitem_In; eauto |]. auto.
  - destruct (List.length audio_streams =? 1)%nat eqn:Hone.
    + intros H. right.
      apply bind_Ret_inv in H as (d1 & ? & ? & ? & Hget1 & H & ?).
      unfold lift in Hget1. injection Hget1 as Hget1 <- _.
      apply bind_Ret_inv in H as (ch1 & ? & ? & ? & Hch & H & ?).
      unfold lift in Hch. injection Hch as Hch <- _.
      apply bind_Ret_inv in H as (d2 & ? & ? & ? & Hget2 & H & ?).
      unfold lift in Hget2. injection Hget2 as Hget2 <- _.
      apply bind_Ret_inv in H as (cn2 & ? & ? & ? & Hcn & H & ?).
      unfold lift in Hcn. injection Hcn as Hcn <- _.
      unfold ret in H. injection H as <- -> -> -> _.
      exists d2. split; [eapply list_getitem_In; eauto |]. auto.
    + intros H. left. unfold ret in H. injection H as <- _ <- <- _.
      destruct audio_streams as [| ? [| ? ?]]; try discriminate. auto.
Qed.

Lemma choose_subtitle_inv (key : string) (subtitle_streams : list json)
    ins i cn ins' tr :
  choose_subtitle key subtitle_streams ins = (Ret (i, cn), ins', tr) ->
  (subtitle_streams = [] /\ i = (-1)%Z /\ cn = JStr "none" /\ ins' = ins)
  \/ (exists d, In d subtitle_streams
                /\ subscript d "codec_name" = Ret cn
                /\ ((i = 0%Z /\ ins' = ins) \/ ins = Some i :: ins')).
Proof.
  unfold choose_subtitle.
  destruct (1 <? List.length subtitle_streams)%nat eqn:Hmany.
  - intros H. right.
    apply bind_Ret_inv in H as (? & ins1 & ? & ? & Hemit & H & ?).
    unfold emit in Hemit. injection Hemit as _ <- _.
    apply bind_Ret_inv in H as ([] & ins2 & ? & ? & Hprint & H & ?).
    apply print_stream_info_Ret in Hprint as ->.
    apply bind_Ret_inv in H as (z & ins3 & ? & ? & Hin & H & ?).
    apply input_int_Ret in Hin as ->.
    apply bind_Ret_inv in H as (d2 & ? & ? & ? & Hget2 & H & ?).
    unfold lift in Hget2. injection Hget2 as Hget2 <- _.
    apply bind_Ret_inv in H as (cn2 & ? & ? & ? & Hcn & H & ?).
    unfold lift in Hcn. injection Hcn as Hcn <- _.
    unfold ret in H. injection H as -> -> -> _.
    exists d2. split; [eapply list_getitem_In; eauto |]. auto.
  - destruct (List.length subtitle_streams =? 1)%nat eqn:Hone.
    + intros H. right.
      apply bind_Ret_inv in H as (d2 & ? & ? & ? & Hget2 & H & ?).
      unfold lift in Hget2. injection Hget2 as Hget2 <- _.
      apply bind_Ret_inv in H as (cn2 & ? & ? & ? & Hcn & H & ?).
      unfold lift in Hcn. injection Hcn as Hcn <- _.
      unfold ret in H. injection H as <- -> -> _.
      exists d2. split; [eapply list_getitem_In; eauto |]. auto.
    + intros H. left. unfold ret in H. injection H as <- <- <- _.
      destruct subtitle_streams as [| ? [| ? ?]]; try discriminate. auto.
Qed.

(** C7, as the code has it.  A record produced by resolution satisfies
    [audio_index >= 0 <-> audio_codec <> "none"], and the same for the
    subtitle fields, when every integer the operator types is 0 or more and
    no candidate has the codec name "none". *)
Theorem track_invariant_of_valid_choices (key : string)
    (audio_streams subtitle_streams : list json)
    (ins : list answer) (info : track_info) ins' tr :
  nonnegative_answers ins ->
  named_codecs audio_streams ->
  named_codecs subtitle_streams ->
  choose_tracks key audio_streams subtitle_streams ins = (Ret info, ins', tr) ->
  track_invariant info.
Proof.
  intros Hins Haudio Hsub H. unfold choose_tracks in H.
  apply bind_Ret_inv in H as ([[ai ach] acn] & ins1 & ? & ? & Ha & H & ?).
  apply bind_Ret_inv in H as ([si scn] & ins2 & ? & ? & Hs & H & ?).
  unfold ret in H. injection H as <- _ _.
  unfold named_codecs in *. rewrite Forall_forall in Haudio, Hsub.
  apply choose_audio_inv in Ha. apply choose_subtitle_inv in Hs.
  assert (Hins1 : nonnegative_answers ins1).
  { destruct Ha as [(_ & _ & _ & ->) | (d & _ & _ & [[_ ->] | ->])]; auto.
    inversion Hins; assumption. }
  split; simpl.
  - destruct Ha as [(_ & -> & -> & _) | (d & Hd & Hcn & Hi)].
    + split; [lia | congruence].
    + assert (acn <> JStr "none") by (intros ->; apply list_elem_of_In in Hd; exact (Haudio d Hd Hcn)).
      split; [auto | intros _].
      destruct Hi as [[-> _] | ->]; [lia |].
      inversion Hins as [| ? ? Hz _]; subst. auto.
  - destruct Hs as [(_ & -> & -> & _) | (d & Hd & Hcn & Hi)].
    + split; [lia | congruence].
    + assert (scn <> JStr "none") by (intros ->; apply list_elem_of_In in Hd; exact (Hsub d Hd Hcn)).
      split; [auto | intros _].
      destruct Hi as [[-> _] | ->]; [lia |].
      inversion Hins1 as [| ? ? Hz _]; subst. auto.
Qed.

Lemma track_invariant_of_valid_choices_witness :
  track_invariant
    {| audio_index := 1; subtitle_index := 0;
       audio_codec := JStr "aac"; audio_channels := JInt 2;
       subtitle_codec := JStr "hdmv_pgs_subtitle" |}.
Proof.
  apply (track_invariant_of_valid_choices "Show"
           [stream_flac; stream_aac] [stream_pgs; stream_ass]
           [Some 1%Z; Some 0%Z]
           _ []
           (trace_of (choose_tracks "Show" [stream_flac; stream_aac]
                        [stream_pgs; stream_ass] [Some 1%Z; Some 0%Z]))).
  - repeat constructor; intros z Hz; injection Hz as <-; lia.
  - repeat constructor; discriminate.
  - repeat constructor; discriminate.
  - reflexivity.
Defined.

(** C7 as stated fails: with two audio candidates the answer -1 is stored
    as the index while Python's subscript takes the last candidate, so the
    record has a negative audio index and the codec "aac"; and a lone
    candidate whose codec name is "none" is stored with index 0. *)
Lemma track_invariant_broken_by_negative_answer :
  (outcome_of (choose_tracks "Show" [stream_flac; stream_aac] [] [Some (-1)%Z])
     = Ret negative_choice
   /\ ~ track_invariant negative_choice)
  /\ (outcome_of (choose_tracks "Show" [stream_none] [] []) = Ret unnamed_choice
      /\ ~ track_invariant unnamed_choice).
Proof.
  split; (split; [reflexivity |]).
  - intros [[_ H] _]. simpl in H.
    assert (Hneg : (0 <= -1)%Z) by (apply H; discriminate). lia.
  - intros [[H _] _]. simpl in H. apply H; [lia | reflexivity].
Qed.

(** ** BatchPlanner: the two passes *)

Lemma choose_audio_emits (P : event -> Prop) (key : string) (streams : list json) :
  (forall line, P (Stdout line)) ->
  (forall i title language, P (StdoutStream i title language)) ->
  (forall msg, P (Prompt msg)) ->
  emits P (choose_audio key streams).
Proof.
  intros Hout Hstream Hprompt. unfold choose_audio, print_stream_info.
  effects. apply print_stream_info_from_emits; auto.
Qed.

Lemma choose_subtitle_emits (P : event -> Prop) (key : string) (streams : list json) :
  (forall line, P (Stdout line)) ->
  (forall i title language, P (StdoutStream i title language)) ->
  (forall msg, P (Prompt msg)) ->
  emits P (choose_subtitle key streams).
Proof.
  intros Hout Hstream Hprompt. unfold choose_subtitle, print_stream_info.
  effects. apply print_stream_info_from_emits; auto.
Qed.

(** The first pass never starts the encoder. *)
Lemma resolve_tracks_emits (e : env) (key file : string) :
  emits first_pass_event (resolve_tracks e key file).
Proof.
  unfold resolve_tracks, probe_streams, choose_tracks, run, json_loads.
  effects; try reflexivity.
  - apply choose_audio_emits; reflexivity.
  - apply choose_subtitle_emits; reflexivity.
Qed.

Lemma first_pass_emits (e : env) (file_list : list string) :
  forall chosen_tracks, emits first_pass_event (first_pass e file_list chosen_tracks).
Proof.
  induction file_list as [| file rest IH]; simpl; intros chosen_tracks.
  - apply emits_ret.
  - destruct (chosen_tracks !! get_key file); [apply IH |].
    apply emits_bind; [apply resolve_tracks_emits | intros; apply IH].
Qed.

(** When the first pass returns, every key of the file list is chosen, and
    nothing chosen before is lost. *)
Lemma first_pass_resolves (e : env) (file_list : list string) :
  forall (chosen_tracks chosen_tracks' : gmap string track_info) ins ins' tr,
    first_pass e file_list chosen_tracks ins = (Ret chosen_tracks', ins', tr) ->
    (forall key, is_Some (chosen_tracks !! key) -> is_Some (chosen_tracks' !! key))
    /\ (forall file, In file file_list -> is_Some (chosen_tracks' !! get_key file)).
Proof.
  induction file_list as [| file rest IH]; simpl;
    intros chosen_tracks chosen_tracks' ins ins' tr H.
  - unfold ret in H. injection H as <- _ _. split; [auto | intros ? []].
  - destruct (chosen_tracks !! get_key file) as [info |] eqn:Hkey.
    + apply IH in H as [Hmono Hall]. split; [exact Hmono |].
      intros f [<- | Hf]; [apply Hmono; rewrite Hkey; eauto | auto].
    + apply bind_Ret_inv in H as (info & ins1 & tr1 & tr2 & _ & H & _).
      apply IH in H as [Hmono Hall]. split.
      * intros key Hk. apply Hmono.
        destruct (decide (get_key file = key)) as [<- | Hne].
        -- rewrite lookup_insert_eq. eauto.
        -- rewrite lookup_insert_ne by assumption. exact Hk.
      * intros f [<- | Hf]; [| auto].
        apply Hmono. rewrite lookup_insert_eq. eauto.
Qed.

(** The second pass probes nothing, prompts for nothing and reads no
    answer. *)
Lemma encode_file_emits (e : env) (chosen_tracks : gmap string track_info)
    (file : string) :
  emits second_pass_event (encode_file e chosen_tracks file).
Proof.
  unfold encode_file, run. effects; split; reflexivity.
Qed.

Lemma second_pass_emits (e : env) (chosen_tracks : gmap string track_info)
    (file_list : list string) :
  emits second_pass_event (second_pass e file_list chosen_tracks).
Proof.
  induction file_list as [| file rest IH]; simpl.
  - apply emits_ret.
  - apply emits_bind; [apply encode_file_emits | intros; apply IH].
Qed.

Lemma encode_file_keeps (e : env) (chosen_tracks : gmap string track_info)
    (file : string) :
  keeps_input (encode_file e chosen_tracks file).
Proof. unfold encode_file, run. effects. Qed.

Lemma second_pass_keeps (e : env) (chosen_tracks : gmap string track_info)
    (file_list : list string) :
  keeps_input (second_pass e file_list chosen_tracks).
Proof.
  induction file_list as [| file rest IH]; simpl.
  - apply keeps_ret.
  - apply keeps_bind; [apply encode_file_keeps | intros; apply IH].
Qed.

(** An encode never raises once its key is chosen: a failed or unlaunched
    encoder is reported and the loop goes on. *)
Lemma encode_file_returns (e : env) (chosen_tracks : gmap string track_info)
    (file : string) (ins : list answer) :
  is_Some (chosen_tracks !! get_key file) ->
  outcome_of (encode_file e chosen_tracks file ins) = Ret tt.
Proof.
  intros [info Hinfo]. unfold encode_file. rewrite Hinfo.
  unfold bind, try_OSError, run, emit, ret, raise. simpl.
  destruct (subprocess e _) as [msg | results]; simpl; [reflexivity |].
  destruct (negb (returncode results =? 0)%Z); reflexivity.
Qed.

Lemma second_pass_returns (e : env) (chosen_tracks : gmap string track_info)
    (file_list : list string) (ins : list answer) :
  (forall file, In file file_list -> is_Some (chosen_tracks !! get_key file)) ->
  outcome_of (second_pass e file_list chosen_tracks ins) = Ret tt.
Proof.
  revert ins. induction file_list as [| file rest IH]; simpl; intros ins Hall.
  - reflexivity.
  - pose proof (encode_file_returns e chosen_tracks file ins
                  (Hall file (or_introl eq_refl))) as Hfile.
    unfold bind.
    destruct (encode_file e chosen_tracks file ins) as [[out ins1] tr1].
    unfold outcome_of in Hfile. simpl in Hfile. subst out.
    specialize (IH ins1 (fun f Hf => Hall f (or_intror Hf))).
    destruct (second_pass e rest chosen_tracks ins1) as [[out2 ins2] tr2].
    exact IH.
Qed.

Lemma make_output_dir_cases (e : env) (ins : list answer) :
  (exists msg,
     path_exists e "hardsubbed" = false
     /\ mkdir_error e "hardsubbed" = Some msg
     /\ make_output_dir e ins
        = (Raise (SystemExit None), ins, [Mkdir "hardsubbed"; Stderr msg]))
  \/ ((path_exists e "hardsubbed" = true \/ mkdir_error e "hardsubbed" = None)
      /\ exists tr0,
           make_output_dir e ins = (Ret tt, ins, tr0)
           /\ Forall first_pass_event tr0).
Proof.
  unfold make_output_dir.
  destruct (path_exists e "hardsubbed") eqn:Hexists; simpl.
  - right. split; [auto |]. exists []. split; [reflexivity | constructor].
  - unfold try_OSError, os_mkdir, bind, emit, raise, ret, sys_exit.
    destruct (mkdir_error e "hardsubbed") as [msg |] eqn:Hmk; simpl.
    + left. exists msg. auto.
    + right. split; [auto |]. eexists. split; [reflexivity |].
      repeat constructor.
Qed.

Lemma encode_not_first_pass_event (pre post : list event) (args : list string) :
  is_encode (Run args) = true ->
  ~ Forall first_pass_event (pre ++ Run args :: post).
Proof.
  intros Henc H. apply Forall_app in H as [_ H].
  inversion H as [| ? ? Hev _]; subst.
  unfold first_pass_event in Hev. congruence.
Qed.

Lemma split_after_first_pass (l1 l2 pre post : list event) (args : list string) :
  Forall first_pass_event l1 ->
  is_encode (Run args) = true ->
  l1 ++ l2 = pre ++ Run args :: post ->
  exists pre2, pre = l1 ++ pre2 /\ l2 = pre2 ++ Run args :: post.
Proof.
  intros Hl1 Henc. revert pre.
  induction Hl1 as [| ev l1 Hev _ IH]; intros pre H; simpl in H.
  - exists pre. auto.
  - destruct pre as [| ev' pre]; simpl in H; injection H as -> H.
    + unfold first_pass_event in Hev. congruence.
    + destruct (IH pre H) as (pre2 & -> & ->). exists pre2. auto.
Qed.

(** C6.  Whenever a run starts the encoder, the first pass has already
    returned: its whole trace lies before that invocation, the registry it
    returned holds a track selection for the key of every file of the list,
    the invocation belongs to the second pass run on that registry, and the
    second pass neither probes nor prompts. *)
Theorem passes_in_order (e : env) (ins : list answer)
    (pre post : list event) (args : list string) :
  trace_of (main e ins) = pre ++ Run args :: post ->
  is_encode (Run args) = true ->
  exists (chosen_tracks : gmap string track_info) ins1 tr0 tr1 pre2,
    make_output_dir e ins = (Ret tt, ins, tr0)
    /\ first_pass e (discover e) ∅ ins = (Ret chosen_tracks, ins1, tr1)
    /\ (forall file, In file (discover e) ->
                     is_Some (chosen_tracks !! get_key file))
    /\ pre = tr0 ++ tr1 ++ pre2
    /\ Forall first_pass_event (tr0 ++ tr1)
    /\ trace_of (second_pass e (discover e) chosen_tracks ins1)
       = pre2 ++ Run args :: post
    /\ Forall second_pass_event (pre2 ++ Run args :: post).
Proof.
  intros Htrace Henc. unfold main in Htrace.
  destruct (make_output_dir_cases e ins)
    as [(msg & _ & _ & Hdir) | (_ & tr0 & Hdir & Htr0)].
  { rewrite (bind_Raise _ _ _ _ _ _ Hdir) in Htrace. simpl in Htrace.
    destruct pre as [| ? [| ? [| ? ?]]]; discriminate. }
  rewrite (bind_Ret _ _ _ _ _ _ Hdir) in Htrace. simpl in Htrace.
  pose proof (first_pass_emits e (discover e) ∅ ins) as Htr1.
  destruct (first_pass e (discover e) ∅ ins) as [[[chosen_tracks | err] ins1] tr1]
    eqn:Hfirst; simpl in Htr1.
  - rewrite (bind_Ret _ _ _ _ _ _ Hfirst) in Htrace. simpl in Htrace.
    rewrite app_assoc in Htrace.
    assert (Hboth : Forall first_pass_event (tr0 ++ tr1))
      by (apply Forall_app; auto).
    destruct (split_after_first_pass _ _ _ _ _ Hboth Henc Htrace)
      as (pre2 & -> & Hsecond).
    exists chosen_tracks, ins1, tr0, tr1, pre2.
    split; [exact Hdir |]. split; [reflexivity |].
    split; [exact (proj2 (first_pass_resolves _ _ _ _ _ _ _ Hfirst)) |].
    split; [symmetry; apply app_assoc |].
    split; [exact Hboth |]. split; [exact Hsecond |].
    rewrite <- Hsecond. apply second_pass_emits.
  - rewrite (bind_Raise _ _ _ _ _ _ Hfirst) in Htrace. simpl in Htrace.
    exfalso. apply (encode_not_first_pass_event pre post args Henc).
    rewrite <- Htrace. apply Forall_app; auto.
Qed.

(** ** Runs of [main] *)

#[local] Arguments get_key : simpl never.
#[local] Arguments output_path : simpl never.
#[local] Arguments format_int : simpl never.

Lemma make_output_dir_present (e : env) (ins : list answer) :
  path_exists e "hardsubbed" = true ->
  make_output_dir e ins = (Ret tt, ins, []).
Proof. intros H. unfold make_output_dir. rewrite H. reflexivity. Qed.

Lemma first_pass_new (e : env) (file : string) (rest : list string)
    (chosen_tracks : gmap string track_info) ins info ins1 tr1 :
  chosen_tracks !! get_key file = None ->
  resolve_tracks e (get_key file) file ins = (Ret info, ins1, tr1) ->
  first_pass e (file :: rest) chosen_tracks ins
  = (outcome_of (first_pass e rest (<[get_key file := info]> chosen_tracks) ins1),
     input_of (first_pass e rest (<[get_key file := info]> chosen_tracks) ins1),
     tr1 ++ trace_of (first_pass e rest (<[get_key file := info]> chosen_tracks) ins1)).
Proof.
  intros Hkey Hres. simpl. rewrite Hkey.
  rewrite (bind_Ret _ _ _ _ _ _ Hres). reflexivity.
Qed.

Lemma first_pass_known (e : env) (file : string) (rest : list string)
    (chosen_tracks : gmap string track_info) ins info :
  chosen_tracks !! get_key file = Some info ->
  first_pass e (file :: rest) chosen_tracks ins = first_pass e rest chosen_tracks ins.
Proof. intros Hkey. simpl. rewrite Hkey. reflexivity. Qed.

Lemma resolve_tracks_stereo_aac (e : env) (key file : string) (ins : list answer) :
  subprocess e (ffprobe_args file) = inr stereo_aac_only ->
  resolve_tracks e key file ins
  = (Ret stereo_aac_choice, ins, [Run (ffprobe_args file)]).
Proof.
  intros Hprobe.
  unfold resolve_tracks, probe_streams, run, bind, emit.
  rewrite Hprobe. reflexivity.
Qed.

(** The flags a stored selection is turned into.  The call passes the
    channels where [get_audio_flags] expects the codec and the codec where
    it expects the channels. *)
Lemma encode_file_succeeds (e : env) (chosen_tracks : gmap string track_info)
    (file : string) (info : track_info) (ins : list answer) :
  chosen_tracks !! get_key file = Some info ->
  subprocess e
    (ffmpeg_args file
       (get_audio_flags (audio_channels info) (audio_codec info) (audio_index info))
       (get_filter_flags (subtitle_codec info) (subtitle_index info) file))
  = inr succeeded ->
  encode_file e chosen_tracks file ins
  = (Ret tt, ins,
     [Stdout ("Encoding " +:+ file +:+ "...");
      Run (ffmpeg_args file
             (get_audio_flags (audio_channels info) (audio_codec info)
                (audio_index info))
             (get_filter_flags (subtitle_codec info) (subtitle_index info) file));
      Stdout ("Done" +:+ nl)]).
Proof.
  intros Hkey Hrun. unfold encode_file. rewrite Hkey.
  unfold bind, try_OSError, run, emit, ret. rewrite Hrun. reflexivity.
Qed.

(** C2, as the code runs it.  For two files of one series whose first file
    probes to a single stereo AAC stream and no subtitle stream: one probe,
    no prompt, two encoder invocations with the null filter graph and the
    output paths of the two files, but both invocations carry the AAC
    re-encode flags with the bitrate flag, not the stream-copy flags. *)
Theorem same_series_batch (e : env) (ins : list answer) (a b : string) :
  path_exists e "hardsubbed" = true ->
  discover e = [a; b] ->
  get_key a = get_key b ->
  subprocess e (ffprobe_args a) = inr stereo_aac_only ->
  (forall file audio filter,
     subprocess e (ffmpeg_args file audio filter) = inr succeeded) ->
  let encode file :=
    ffmpeg_args file
      ["-c:a"; "aac"; "-b:a"; "192k"; "-ac"; "2"; "-map"; "0:a:" +:+ format_int 0]
      ["-filter_complex"; "[0:v]null[burned];" +:+ scale_stage; "-map"; "[v]"] in
  let tr := trace_of (main e ins) in
  main e ins
  = (Ret tt, ins,
     [Run (ffprobe_args a);
      Stdout ("Encoding " +:+ a +:+ "..."); Run (encode a); Stdout ("Done" +:+ nl);
      Stdout ("Encoding " +:+ b +:+ "..."); Run (encode b); Stdout ("Done" +:+ nl)])
  /\ count is_probe tr = 1%nat
  /\ count is_prompt tr = 0%nat
  /\ encodes tr = [encode a; encode b]
  /\ last (encode a) = Some (output_path a)
  /\ last (encode b) = Some (output_path b)
  /\ In "-b:a" (encode a) /\ In "-b:a" (encode b)
  /\ get_audio_flags (JStr "aac") (JInt 2) 0 <> stream_copy_flags 0.
Proof.
  intros Hexists Hfiles Hkey Hprobe Hencode encode tr.
  assert (Hmain : main e ins
    = (Ret tt, ins,
       [Run (ffprobe_args a);
        Stdout ("Encoding " +:+ a +:+ "..."); Run (encode a); Stdout ("Done" +:+ nl);
        Stdout ("Encoding " +:+ b +:+ "..."); Run (encode b); Stdout ("Done" +:+ nl)])).
  { unfold main.
    rewrite (bind_Ret _ _ _ _ _ _ (make_output_dir_present e ins Hexists)).
    rewrite Hfiles.
    assert (Hfirst : first_pass e [a; b] ∅ ins
                     = (Ret (<[get_key a := stereo_aac_choice]> ∅), ins,
                        [Run (ffprobe_args a)])).
    { rewrite (first_pass_new e a [b] ∅ ins stereo_aac_choice ins
                 [Run (ffprobe_args a)]);
        [| apply lookup_empty | apply resolve_tracks_stereo_aac; exact Hprobe].
      rewrite (first_pass_known e b [] _ ins stereo_aac_choice)
        by (rewrite <- Hkey; apply lookup_insert_eq).
      reflexivity. }
    rewrite (bind_Ret _ _ _ _ _ _ Hfirst).
    assert (Hsecond :
      second_pass e [a; b] (<[get_key a := stereo_aac_choice]> ∅) ins
      = (Ret tt, ins,
         [Stdout ("Encoding " +:+ a +:+ "..."); Run (encode a); Stdout ("Done" +:+ nl);
          Stdout ("Encoding " +:+ b +:+ "..."); Run (encode b); Stdout ("Done" +:+ nl)])).
    { unfold second_pass.
      rewrite (bind_Ret _ _ _ _ _ _
                 (encode_file_succeeds e _ a stereo_aac_choice ins
                    (lookup_insert_eq _ _ _) (Hencode _ _ _))).
      assert (Hb : <[get_key a := stereo_aac_choice]> (∅ : gmap string track_info)
                   !! get_key b = Some stereo_aac_choice)
        by (rewrite <- Hkey; apply lookup_insert_eq).
      rewrite (bind_Ret _ _ _ _ _ _
                 (encode_file_succeeds e _ b stereo_aac_choice ins
                    Hb (Hencode _ _ _))).
      reflexivity. }
    rewrite Hsecond. reflexivity. }
  split; [exact Hmain |].
  subst tr. rewrite Hmain.
  split; [reflexivity |]. split; [reflexivity |]. split; [reflexivity |].
  split; [unfold encode, ffmpeg_args; rewrite !app_assoc; apply last_snoc |].
  split; [unfold encode, ffmpeg_args; rewrite !app_assoc; apply last_snoc |].
  split; [unfold encode, ffmpeg_args; simpl; tauto |].
  split; [unfold encode, ffmpeg_args; simpl; tauto |].
  discriminate.
Qed.

Lemma same_series_batch_witness :
  main same_series []
  = (Ret tt, [],
     [Run (ffprobe_args "[G] Show - 01 [720p].mkv");
      Stdout "Encoding [G] Show - 01 [720p].mkv...";
      Run (ffmpeg_args "[G] Show - 01 [720p].mkv"
             ["-c:a"; "aac"; "-b:a"; "192k"; "-ac"; "2"; "-map"; "0:a:0"]
             ["-filter_complex";
              "[0:v]null[burned];[burned]scale=-16:min(720\,ih)[v]";
              "-map"; "[v]"]);
      Stdout ("Done" +:+ nl);
      Stdout "Encoding [G] Show - 02 [720p].mkv...";
      Run (ffmpeg_args "[G] Show - 02 [720p].mkv"
             ["-c:a"; "aac"; "-b:a"; "192k"; "-ac"; "2"; "-map"; "0:a:0"]
             ["-filter_complex";
              "[0:v]null[burned];[burned]scale=-16:min(720\,ih)[v]";
              "-map"; "[v]"]);
      Stdout ("Done" +:+ nl)]).
Proof.
  refine (proj1 (same_series_batch same_series []
                   "[G] Show - 01 [720p].mkv" "[G] Show - 02 [720p].mkv"
                   _ _ _ _ _)); reflexivity.
Defined.

Lemma passes_in_order_witness :
  exists (chosen_tracks : gmap string track_info) ins1 tr0 tr1 pre2,
    make_output_dir same_series [] = (Ret tt, [], tr0)
    /\ first_pass same_series (discover same_series) ∅ []
       = (Ret chosen_tracks, ins1, tr1)
    /\ (forall file, In file (discover same_series) ->
                     is_Some (chosen_tracks !! get_key file))
    /\ firstn 2 (trace_of (main same_series [])) = tr0 ++ tr1 ++ pre2
    /\ Forall first_pass_event (tr0 ++ tr1)
    /\ trace_of (second_pass same_series (discover same_series) chosen_tracks ins1)
       = pre2 ++ Run (ffmpeg_args "[G] Show - 01 [720p].mkv"
                        (reencode_flags 0)
                        (get_filter_flags (JStr "none") (-1)
                           "[G] Show - 01 [720p].mkv"))
              :: skipn 3 (trace_of (main same_series []))
    /\ Forall second_pass_event
         (pre2 ++ Run (ffmpeg_args "[G] Show - 01 [720p].mkv"
                         (reencode_flags 0)
                         (get_filter_flags (JStr "none") (-1)
                            "[G] Show - 01 [720p].mkv"))
               :: skipn 3 (trace_of (main same_series []))).
Proof.
  apply (passes_in_order same_series []); reflexivity.
Defined.

(** ** Exit behaviour *)

(** C8, as the code has it.  When the output directory is absent and
    cannot be created, the run prints the error and ends at once through
    [sys.exit()] with no argument, that is with exit status 0, after the
    [mkdir] attempt alone: no probe, no encode.  When the directory exists
    or is created and the first pass returns, the run ends normally with
    status 0 whatever the encoder invocations did. *)
Theorem exit_behaviour (e : env) (ins : list answer) :
  (forall msg,
     path_exists e "hardsubbed" = false ->
     mkdir_error e "hardsubbed" = Some msg ->
     main e ins = (Raise (SystemExit None), ins, [Mkdir "hardsubbed"; Stderr msg])
     /\ exit_status (outcome_of (main e ins)) = 0%Z)
  /\ (forall (chosen_tracks : gmap string track_info) ins1 tr1,
        path_exists e "hardsubbed" = true \/ mkdir_error e "hardsubbed" = None ->
        first_pass e (discover e) ∅ ins = (Ret chosen_tracks, ins1, tr1) ->
        outcome_of (main e ins) = Ret tt
        /\ exit_status (outcome_of (main e ins)) = 0%Z).
Proof.
  split.
  - intros msg Hexists Hmk.
    destruct (make_output_dir_cases e ins)
      as [(msg' & _ & Hmk' & Hdir) | ([Hex | Hok] & _)]; try congruence.
    assert (msg' = msg) as -> by congruence.
    unfold main. rewrite (bind_Raise _ _ _ _ _ _ Hdir). auto.
  - intros chosen_tracks ins1 tr1 Hdirok Hfirst.
    destruct (make_output_dir_cases e ins)
      as [(msg' & Hex' & Hmk' & _) | (_ & tr0 & Hdir & _)].
    { destruct Hdirok; congruence. }
    assert (Hout : outcome_of (main e ins) = Ret tt).
    { unfold main.
      rewrite (bind_Ret _ _ _ _ _ _ Hdir), (bind_Ret _ _ _ _ _ _ Hfirst).
      unfold outcome_of at 1 2. simpl.
      apply second_pass_returns.
      exact (proj2 (first_pass_resolves _ _ _ _ _ _ _ Hfirst)). }
    rewrite Hout. auto.
Qed.

Lemma exit_behaviour_witness :
  (main read_only_directory []
   = (Raise (SystemExit None), [],
      [Mkdir "hardsubbed";
       Stderr "[Errno 30] Read-only file system: 'hardsubbed'"])
   /\ exit_status (outcome_of (main read_only_directory [])) = 0%Z)
  /\ (outcome_of (main same_series []) = Ret tt
      /\ exit_status (outcome_of (main same_series [])) = 0%Z).
Proof.
  split.
  - apply (proj1 (exit_behaviour read_only_directory [])); reflexivity.
  - apply (proj2 (exit_behaviour same_series [])
             (<[get_key "[G] Show - 01 [720p].mkv" := stereo_aac_choice]> ∅)
             [] [Run (ffprobe_args "[G] Show - 01 [720p].mkv")]).
    + left; reflexivity.
    + vm_compute. reflexivity.
Defined.

(** C8 as stated fails: after the failed [mkdir] the exit status is 0;
    and a run in which [mkdir] is not even needed ends with an unhandled
    exception, status 1, when the first pass raises. *)
Lemma mkdir_failure_exits_with_status_zero :
  (path_exists read_only_directory "hardsubbed" = false
   /\ mkdir_error read_only_directory "hardsubbed"
      = Some "[Errno 30] Read-only file system: 'hardsubbed'"
   /\ ~ (exit_status (outcome_of (main read_only_directory [])) <> 0%Z))
  /\ (path_exists probe_fails "hardsubbed" = true
      /\ outcome_of (main probe_fails []) <> Ret tt
      /\ exit_status (outcome_of (main probe_fails [])) = 1%Z).
Proof.
  split.
  - split; [reflexivity |]. split; [reflexivity |].
    intros H. apply H. reflexivity.
  - split; [reflexivity |]. split; [discriminate | reflexivity].
Qed.

Lemma bind_assoc {A B C : Type} (m : M A) (f : A -> M B) (g : B -> M C) ins :
  bind (bind m f) g ins = bind m (fun a => bind (f a) g) ins.
Proof.
  unfold bind. destruct (m ins) as [[[a | err] ins1] tr1]; [| reflexivity].
  destruct (f a ins1) as [[[b | err] ins2] tr2]; [| reflexivity].
  destruct (g b ins2) as [[out ins3] tr3]. rewrite app_assoc. reflexivity.
Qed.

Lemma bind_ext {A B : Type} (m : M A) (f g : A -> M B) ins :
  (forall a ins1, f a ins1 = g a ins1) -> bind m f ins = bind m g ins.
Proof.
  intros H. unfold bind. destruct (m ins) as [[[a | err] ins1] tr1]; [| reflexivity].
  rewrite H. reflexivity.
Qed.

(** The first loop over [l1 ++ l2] is the loop over [l1] followed by the
    loop over [l2] on the registry reached. *)
Lemma first_pass_app (e : env) (l1 l2 : list string) :
  forall (chosen_tracks : gmap string track_info) ins,
    first_pass e (l1 ++ l2) chosen_tracks ins
    = bind (first_pass e l1 chosen_tracks)
        (fun chosen_tracks' => first_pass e l2 chosen_tracks') ins.
Proof.
  induction l1 as [| file l1 IH]; intros chosen_tracks ins.
  - simpl. unfold bind, ret.
    destruct (first_pass e l2 chosen_tracks ins) as [[out ins1] tr1]. reflexivity.
  - change (first_pass e (file :: l1 ++ l2) chosen_tracks ins
            = bind (first_pass e (file :: l1) chosen_tracks)
                (fun chosen_tracks' => first_pass e l2 chosen_tracks') ins).
    simpl first_pass.
    destruct (chosen_tracks !! get_key file); [apply IH |].
    rewrite bind_assoc. apply bind_ext. intros info ins1. apply IH.
Qed.

Lemma no_encode_in_first_pass_events (tr : list event) :
  Forall first_pass_event tr -> count is_encode tr = 0%nat.
Proof.
  unfold count. induction 1 as [| ev tr Hev _ IH]; [reflexivity |].
  simpl. unfold first_pass_event in Hev. rewrite Hev. exact IH.
Qed.

(** A probe that exits non-zero without JSON on its output: the failure is
    printed, then [json.loads] raises. *)
Lemma resolve_tracks_probe_failure (e : env) (key file : string)
    (ins : list answer) (code : Z) :
  code <> 0%Z ->
  subprocess e (ffprobe_args file) = inr {| returncode := code; stdout := None |} ->
  resolve_tracks e key file ins
  = (Raise ValueError, ins,
     [Run (ffprobe_args file);
      Stderr ("probe failed with code: " +:+ format_int code)]).
Proof.
  intros Hcode Hprobe.
  assert (Hne : negb (code =? 0)%Z = true)
    by (apply negb_true_iff, Z.eqb_neq; exact Hcode).
  unfold resolve_tracks, probe_streams, run, bind, emit.
  rewrite Hprobe. simpl. rewrite Hne. reflexivity.
Qed.

(** The same probe printing a JSON object without "streams". *)
Lemma resolve_tracks_probe_no_streams (e : env) (key file : string)
    (ins : list answer) (code : Z) (items : list (string * json)) :
  code <> 0%Z ->
  assoc "streams" items = None ->
  subprocess e (ffprobe_args file)
  = inr {| returncode := code; stdout := Some (JDict items) |} ->
  resolve_tracks e key file ins
  = (Raise (KeyError "streams"), ins,
     [Run (ffprobe_args file);
      Stderr ("probe failed with code: " +:+ format_int code)]).
Proof.
  intros Hcode Hitems Hprobe.
  assert (Hne : negb (code =? 0)%Z = true)
    by (apply negb_true_iff, Z.eqb_neq; exact Hcode).
  unfold resolve_tracks, probe_streams, run, bind, emit.
  rewrite Hprobe. simpl. rewrite Hne. simpl. rewrite Hitems. reflexivity.
Qed.

(** C9, as the code runs it.  Let the files before [file] be resolved and
    let [file] open a new series.  When the probe of [file] exits non-zero,
    the failure is printed to stderr and the run then ends with an
    unhandled exception raised while reading the probe output (a ValueError
    when the output is not JSON, a KeyError when it is a JSON object
    without "streams"): the files after [file] are never probed and nothing
    is encoded. *)
Theorem probe_failure_ends_run (e : env) (ins : list answer)
    (done : list string) (file : string) (rest : list string) (code : Z)
    (chosen_tracks : gmap string track_info) ins1 tr1 :
  path_exists e "hardsubbed" = true ->
  discover e = done ++ file :: rest ->
  first_pass e done ∅ ins = (Ret chosen_tracks, ins1, tr1) ->
  chosen_tracks !! get_key file = None ->
  code <> 0%Z ->
  (subprocess e (ffprobe_args file) = inr {| returncode := code; stdout := None |} ->
   main e ins
   = (Raise ValueError, ins1,
      tr1 ++ [Run (ffprobe_args file);
              Stderr ("probe failed with code: " +:+ format_int code)])
   /\ count is_encode (trace_of (main e ins)) = 0%nat
   /\ exit_status (outcome_of (main e ins)) = 1%Z)
  /\ (forall items,
        assoc "streams" items = None ->
        subprocess e (ffprobe_args file)
        = inr {| returncode := code; stdout := Some (JDict items) |} ->
        main e ins
        = (Raise (KeyError "streams"), ins1,
           tr1 ++ [Run (ffprobe_args file);
                   Stderr ("probe failed with code: " +:+ format_int code)])
        /\ count is_encode (trace_of (main e ins)) = 0%nat
        /\ exit_status (outcome_of (main e ins)) = 1%Z).
Proof.
  intros Hexists Hfiles Hdone Hnew Hcode.
  assert (Hquiet : forall tail,
            count is_encode
              (tr1 ++ [Run (ffprobe_args file); Stderr tail]) = 0%nat).
  { intros tail. rewrite count_app.
    pose proof (first_pass_emits e done ∅ ins) as Htr1.
    rewrite Hdone in Htr1. unfold trace_of in Htr1. simpl in Htr1.
    rewrite (no_encode_in_first_pass_events tr1 Htr1). reflexivity. }
  assert (Hmain : forall err tail,
            resolve_tracks e (get_key file) file ins1
            = (Raise err, ins1, [Run (ffprobe_args file); Stderr tail]) ->
            main e ins
            = (Raise err, ins1, tr1 ++ [Run (ffprobe_args file); Stderr tail])).
  { intros err tail Hres. unfold main.
    rewrite (bind_Ret _ _ _ _ _ _ (make_output_dir_present e ins Hexists)).
    rewrite Hfiles.
    assert (Hfirst : first_pass e (done ++ file :: rest) ∅ ins
                     = (Raise err, ins1,
                        tr1 ++ [Run (ffprobe_args file); Stderr tail])).
    { rewrite first_pass_app, (bind_Ret _ _ _ _ _ _ Hdone).
      simpl first_pass. rewrite Hnew.
      rewrite (bind_Raise _ _ _ _ _ _ Hres). reflexivity. }
    rewrite (bind_Raise _ _ _ _ _ _ Hfirst). reflexivity. }
  split.
  - intros Hprobe.
    pose proof (Hmain _ _ (resolve_tracks_probe_failure e _ file ins1 code
                             Hcode Hprobe)) as H.
    rewrite H. split; [reflexivity |]. split; [apply Hquiet | reflexivity].
  - intros items Hitems Hprobe.
    pose proof (Hmain _ _ (resolve_tracks_probe_no_streams e _ file ins1 code
                             items Hcode Hitems Hprobe)) as H.
    rewrite H. split; [reflexivity |]. split; [apply Hquiet | reflexivity].
Qed.

Lemma probe_failure_ends_run_witness :
  main probe_fails [Some 0%Z]
  = (Raise ValueError, [Some 0%Z],
     [Run (ffprobe_args "broken.mkv"); Stderr "probe failed with code: 1"])
  /\ count is_encode (trace_of (main probe_fails [Some 0%Z])) = 0%nat
  /\ exit_status (outcome_of (main probe_fails [Some 0%Z])) = 1%Z.
Proof.
  refine (proj1 (probe_failure_ends_run probe_fails [Some 0%Z]
                   [] "broken.mkv" ["fine.mkv"] 1 ∅ [Some 0%Z] []
                   _ _ _ _ _) _);
    [reflexivity | reflexivity | reflexivity | apply lookup_empty
    | discriminate | reflexivity].
Defined.

(* ================================================================= *)
(** * Further properties of the code *)

Set Warnings "-clear-no-such-hyp".

(** ** Counting events *)

Lemma emit_bind_trace {A : Type} (ev : event) (k : unit -> M A) (ins : list answer) :
  trace_of (bind (emit ev) k ins) = ev :: trace_of (k tt ins).
Proof.
  unfold bind, emit. destruct (k tt ins) as [[out ins2] tr2]. reflexivity.
Qed.

Lemma bind_trace_Ret {A B : Type} (m : M A) (k : A -> M B) ins a ins1 tr1 :
  m ins = (Ret a, ins1, tr1) ->
  trace_of (bind m k ins) = tr1 ++ trace_of (k a ins1).
Proof. intros H. rewrite (bind_Ret _ _ _ _ _ _ H). reflexivity. Qed.

Lemma bind_trace_Raise {A B : Type} (m : M A) (k : A -> M B) ins err ins1 tr1 :
  m ins = (Raise err, ins1, tr1) ->
  trace_of (bind m k ins) = tr1.
Proof. intros H. rewrite (bind_Raise _ _ _ _ _ _ H). reflexivity. Qed.

Lemma count_zero (p : event -> bool) (tr : list event) :
  Forall (fun ev => p ev = false) tr -> count p tr = 0%nat.
Proof.
  unfold count. induction 1 as [| ev tr Hev _ IH]; [reflexivity |].
  simpl. rewrite Hev. exact IH.
Qed.

Lemma probes_app (tr1 tr2 : list event) :
  probes (tr1 ++ tr2) = probes tr1 ++ probes tr2.
Proof.
  induction tr1 as [| ev tr1 IH]; [reflexivity |].
  destruct ev as [| | | | | args |]; simpl; try exact IH.
  destruct (match args with "ffprobe" :: _ => true | _ => false end);
    simpl; congruence.
Qed.

Lemma probes_none (tr : list event) :
  Forall (fun ev => is_probe ev = false) tr -> probes tr = [].
Proof.
  induction 1 as [| ev tr Hev _ IH]; [reflexivity |].
  destruct ev; try exact IH. cbn [probes]. rewrite Hev. exact IH.
Qed.

Ltac split_literal :=
  repeat match goal with
         | |- context [match ?x with _ => _ end] =>
             is_var x; destruct x; try reflexivity
         end.

Lemma encodes_Run (args : list string) (tr : list event) :
  encodes (Run args :: tr)
  = if is_encode (Run args) then args :: encodes tr else encodes tr.
Proof. simpl. split_literal. Qed.

Lemma encodes_app (tr1 tr2 : list event) :
  encodes (tr1 ++ tr2) = encodes tr1 ++ encodes tr2.
Proof.
  induction tr1 as [| ev tr1 IH]; [reflexivity |].
  destruct ev as [| | | | | args |]; try exact IH.
  rewrite <- app_comm_cons, !encodes_Run.
  destruct (is_encode (Run args)); simpl; congruence.
Qed.

Lemma encodes_none (tr : list event) :
  Forall (fun ev => is_encode ev = false) tr -> encodes tr = [].
Proof.
  induction 1 as [| ev tr Hev _ IH]; [reflexivity |].
  destruct ev as [| | | | | args |]; try exact IH.
  rewrite encodes_Run, Hev. exact IH.
Qed.

Section AtMost.
Context {A B : Type} (p : event -> bool).

Lemma at_most_quiet (m : M A) :
  emits (fun ev => p ev = false) m -> at_most p 0 m.
Proof. intros H ins. rewrite (count_zero p _ (H ins)). constructor. Qed.

Lemma at_most_mono (n n' : nat) (m : M A) :
  (n <= n')%nat -> at_most p n m -> at_most p n' m.
Proof. intros Hle H ins. specialize (H ins). lia. Qed.

Lemma at_most_bind (n1 n2 : nat) (m : M A) (k : A -> M B) :
  at_most p n1 m -> (forall a, at_most p n2 (k a)) ->
  at_most p (n1 + n2) (bind m k).
Proof.
  intros Hm Hk ins. specialize (Hm ins).
  destruct (m ins) as [[[a | err] ins1] tr1] eqn:Hmi.
  - rewrite (bind_trace_Ret _ _ _ _ _ _ Hmi), count_app.
    specialize (Hk a ins1). unfold trace_of in Hm. simpl in Hm. lia.
  - rewrite (bind_trace_Raise _ _ _ _ _ _ Hmi).
    unfold trace_of in Hm. simpl in Hm. lia.
Qed.
End AtMost.

Lemma at_most_input_int (msg : string) : at_most is_prompt 1 (input_int msg).
Proof. intros [| [z |] rest]; constructor. Qed.

(** Each kind prompts at most once, and only when it has two candidates or
    more. *)
Lemma choose_audio_prompts (key : string) (audio_streams : list json) :
  at_most is_prompt (if (1 <? List.length audio_streams)%nat then 1 else 0)%nat
    (choose_audio key audio_streams).
Proof.
  unfold choose_audio.
  destruct (1 <? List.length audio_streams)%nat.
  - apply (at_most_bind _ 0 1); [apply at_most_quiet; effects | intros _].
    apply (at_most_bind _ 0 1); [| intros _].
    { apply at_most_quiet, print_stream_info_from_emits. reflexivity. }
    apply (at_most_bind _ 1 0); [apply at_most_input_int | intros z].
    apply at_most_quiet. effects.
  - apply at_most_quiet. effects.
Qed.

Lemma choose_subtitle_prompts (key : string) (subtitle_streams : list json) :
  at_most is_prompt (if (1 <? List.length subtitle_streams)%nat then 1 else 0)%nat
    (choose_subtitle key subtitle_streams).
Proof.
  unfold choose_subtitle.
  destruct (1 <? List.length subtitle_streams)%nat.
  - apply (at_most_bind _ 0 1); [apply at_most_quiet; effects | intros _].
    apply (at_most_bind _ 0 1); [| intros _].
    { apply at_most_quiet, print_stream_info_from_emits. reflexivity. }
    apply (at_most_bind _ 1 0); [apply at_most_input_int | intros z].
    apply at_most_quiet. effects.
  - apply at_most_quiet. effects.
Qed.

Lemma choose_tracks_prompts (key : string) (audio_streams subtitle_streams : list json) :
  at_most is_prompt
    ((if (1 <? List.length audio_streams)%nat then 1 else 0)
     + (if (1 <? List.length subtitle_streams)%nat then 1 else 0))%nat
    (choose_tracks key audio_streams subtitle_streams).
Proof.
  unfold choose_tracks.
  apply at_most_bind; [apply choose_audio_prompts | intros a].
  rewrite <- (Nat.add_0_r (if (1 <? List.length subtitle_streams)%nat then _ else _)).
  apply at_most_bind; [apply choose_subtitle_prompts | intros s].
  apply at_most_quiet. effects.
Qed.

Section ReadsPerPrompt.
Context {A B : Type}.

Lemma reads_of_keeps (m : M A) : keeps_input m -> reads_per_prompt m.
Proof.
  intros H ins. exists []. rewrite (H ins). split; [reflexivity | simpl; lia].
Qed.

Lemma reads_bind (m : M A) (k : A -> M B) :
  reads_per_prompt m -> (forall a, reads_per_prompt (k a)) ->
  reads_per_prompt (bind m k).
Proof.
  intros Hm Hk ins. destruct (Hm ins) as (used1 & Hins & Hlen).
  destruct (m ins) as [[[a | err] ins1] tr1] eqn:Hmi;
    unfold input_of, trace_of in Hins, Hlen; simpl in Hins, Hlen.
  - destruct (Hk a ins1) as (used2 & Hins2 & Hlen2).
    exists (used1 ++ used2).
    rewrite (bind_Ret _ _ _ _ _ _ Hmi). unfold input_of at 1, trace_of at 1. simpl.
    rewrite count_app, length_app, <- app_assoc, <- Hins2. split; [exact Hins | lia].
  - exists used1. rewrite (bind_Raise _ _ _ _ _ _ Hmi). auto.
Qed.
End ReadsPerPrompt.

Lemma reads_input_int (msg : string) : reads_per_prompt (input_int msg).
Proof.
  intros [| [z |] rest].
  - exists []. split; [reflexivity | cbv; lia].
  - exists [Some z]. split; [reflexivity | cbv; lia].
  - exists [None]. split; [reflexivity | cbv; lia].
Qed.

(** ** The first pass *)

(** Resolving one file starts with its probe, and probes and encodes
    nothing else. *)
Lemma resolve_tracks_trace (e : env) (key file : string) (ins : list answer) :
  exists tr',
    trace_of (resolve_tracks e key file ins) = Run (ffprobe_args file) :: tr'
    /\ Forall (fun ev => is_probe ev = false) tr'
    /\ (count is_prompt tr' <= 2)%nat.
Proof.
  unfold resolve_tracks, probe_streams, run.
  rewrite !bind_assoc, emit_bind_trace.
  eexists. split; [reflexivity |]. split.
  - match goal with
    | |- Forall ?P (trace_of (?m ins)) => revert ins; change (emits P m)
    end.
    unfold json_loads. effects; try reflexivity.
    unfold choose_tracks. effects.
    + apply choose_audio_emits; reflexivity.
    + apply choose_subtitle_emits; reflexivity.
  - match goal with
    | |- (count ?p (trace_of (?m ins)) <= ?n)%nat =>
        revert ins; change (at_most p n m)
    end.
    apply (at_most_bind _ 0 2); [apply at_most_quiet; effects | intros results].
    apply (at_most_bind _ 0 2);
      [apply at_most_quiet; unfold json_loads; effects | intros candidates].
    eapply at_most_mono; [| apply choose_tracks_prompts].
    repeat match goal with |- context [if ?b then _ else _] => destruct b end;
      simpl; lia.
Qed.

Lemma probes_resolve_tracks (e : env) (key file : string) ins out ins1 tr1 :
  resolve_tracks e key file ins = (out, ins1, tr1) ->
  probes tr1 = [ffprobe_args file] /\ (count is_prompt tr1 <= 2)%nat.
Proof.
  intros H. destruct (resolve_tracks_trace e key file ins) as (tr' & Htr & Hquiet & Hp).
  rewrite H in Htr. unfold trace_of in Htr. simpl in Htr. subst tr1.
  split.
  - change (ffprobe_args file :: probes tr' = [ffprobe_args file]).
    rewrite (probes_none tr' Hquiet). reflexivity.
  - exact Hp.
Qed.

(** X1.  When the first loop returns, the registry holds exactly the keys it
    started with and the keys of the files; the selections it started with
    are unchanged; and it grew by one entry per probe. *)
Theorem first_pass_registry (e : env) (file_list : list string) :
  forall (chosen_tracks chosen_tracks' : gmap string track_info) ins ins' tr,
    first_pass e file_list chosen_tracks ins = (Ret chosen_tracks', ins', tr) ->
    dom chosen_tracks' = dom chosen_tracks ∪ list_to_set (map get_key file_list)
    /\ (forall key info,
          chosen_tracks !! key = Some info -> chosen_tracks' !! key = Some info)
    /\ size chosen_tracks' = (size chosen_tracks + List.length (probes tr))%nat.
Proof.
  induction file_list as [| file rest IH];
    intros chosen_tracks chosen_tracks' ins ins' tr H.
  - simpl in H. unfold ret in H. injection H as <- _ <-.
    split; [simpl; set_solver |]. split; [auto | simpl; lia].
  - simpl first_pass in H.
    destruct (chosen_tracks !! get_key file) as [info0 |] eqn:Hkey.
    + destruct (IH _ _ _ _ _ H) as (Hdom & Hkeep & Hsize).
      split; [| split; assumption].
      rewrite Hdom. simpl.
      assert (get_key file ∈ dom chosen_tracks) by (apply elem_of_dom; eauto).
      set_solver.
    + apply bind_Ret_inv in H as (info & ins1 & tr1 & tr2 & Hres & H & ->).
      destruct (IH _ _ _ _ _ H) as (Hdom & Hkeep & Hsize).
      destruct (probes_resolve_tracks _ _ _ _ _ _ _ Hres) as [Hprobe _].
      split; [| split].
      * rewrite Hdom, dom_insert_L. simpl. set_solver.
      * intros key info' Hk. apply Hkeep.
        rewrite lookup_insert_ne; [exact Hk | congruence].
      * rewrite Hsize, probes_app, Hprobe, length_app.
        rewrite map_size_insert_None by assumption. simpl. lia.
Qed.

Lemma first_pass_registry_witness :
  dom (<[get_key "[G] Show - 01 [720p].mkv" := stereo_aac_choice]>
         (∅ : gmap string track_info))
  = dom (∅ : gmap string track_info)
    ∪ list_to_set (map get_key (discover same_series)).
Proof.
  refine (proj1 (first_pass_registry same_series (discover same_series)
                   ∅ _ [] [] [Run (ffprobe_args "[G] Show - 01 [720p].mkv")] _)).
  vm_compute. reflexivity.
Defined.

(** X2.  When the first loop returns, it has probed exactly the files that
    open a new series, each once and in list order: a file whose key is
    already chosen is never probed. *)
Theorem first_pass_probes_representatives (e : env) (file_list : list string) :
  forall (chosen_tracks chosen_tracks' : gmap string track_info) ins ins' tr,
    first_pass e file_list chosen_tracks ins = (Ret chosen_tracks', ins', tr) ->
    probes tr = map ffprobe_args (representatives (dom chosen_tracks) file_list).
Proof.
  induction file_list as [| file rest IH];
    intros chosen_tracks chosen_tracks' ins ins' tr H.
  - simpl in H. unfold ret in H. injection H as _ _ <-. reflexivity.
  - simpl first_pass in H. simpl representatives.
    destruct (chosen_tracks !! get_key file) as [info0 |] eqn:Hkey.
    + rewrite decide_True by (apply elem_of_dom; eauto).
      exact (IH _ _ _ _ _ H).
    + rewrite decide_False by (rewrite elem_of_dom, Hkey; apply is_Some_None).
      apply bind_Ret_inv in H as (info & ins1 & tr1 & tr2 & Hres & H & ->).
      destruct (probes_resolve_tracks _ _ _ _ _ _ _ Hres) as [Hprobe _].
      rewrite probes_app, Hprobe, (IH _ _ _ _ _ H), dom_insert_L. reflexivity.
Qed.

Lemma first_pass_probes_representatives_witness :
  probes [Run (ffprobe_args "[G] Show - 01 [720p].mkv")]
  = map ffprobe_args (representatives (dom (∅ : gmap string track_info))
                        (discover same_series)).
Proof.
  refine (first_pass_probes_representatives same_series (discover same_series)
            ∅ (<[get_key "[G] Show - 01 [720p].mkv" := stereo_aac_choice]> ∅)
            [] [] _ _).
  vm_compute. reflexivity.
Defined.

(** X3.  However the first loop ends, it has prompted at most twice per
    probe: once for audio and once for subtitles of each series it
    reached. *)
Theorem first_pass_prompts_per_probe (e : env) (file_list : list string) :
  forall (chosen_tracks : gmap string track_info) ins,
    (count is_prompt (trace_of (first_pass e file_list chosen_tracks ins))
     <= 2 * List.length (probes (trace_of (first_pass e file_list chosen_tracks ins))))%nat.
Proof.
  induction file_list as [| file rest IH]; intros chosen_tracks ins.
  - simpl. unfold count. simpl. lia.
  - simpl first_pass.
    destruct (chosen_tracks !! get_key file) as [info0 |]; [apply IH |].
    destruct (resolve_tracks e (get_key file) file ins) as [[[info | err] ins1] tr1]
      eqn:Hres;
      destruct (probes_resolve_tracks _ _ _ _ _ _ _ Hres) as [Hprobe Hprompt].
    + rewrite (bind_trace_Ret _ _ _ _ _ _ Hres).
      rewrite count_app, probes_app, length_app, Hprobe.
      specialize (IH (<[get_key file := info]> chosen_tracks) ins1).
      simpl List.length. lia.
    + rewrite (bind_trace_Raise _ _ _ _ _ _ Hres), Hprobe. simpl List.length. lia.
Qed.

(** ** Operator input *)

Ltac reads :=
  repeat first
    [ progress intros
    | apply reads_bind
    | apply reads_input_int
    | apply reads_of_keeps; solve [effects | apply print_stream_info_from_keeps]
    | match goal with
      | |- context [if ?b then _ else _] => destruct b
      end ].

Lemma choose_audio_reads (key : string) (audio_streams : list json) :
  reads_per_prompt (choose_audio key audio_streams).
Proof. unfold choose_audio, print_stream_info. reads. Qed.

Lemma choose_subtitle_reads (key : string) (subtitle_streams : list json) :
  reads_per_prompt (choose_subtitle key subtitle_streams).
Proof. unfold choose_subtitle, print_stream_info. reads. Qed.

Lemma resolve_tracks_reads (e : env) (key file : string) :
  reads_per_prompt (resolve_tracks e key file).
Proof.
  unfold resolve_tracks. apply reads_bind.
  - apply reads_of_keeps. unfold probe_streams, run, json_loads. effects.
  - intros candidates. unfold choose_tracks.
    apply reads_bind; [apply choose_audio_reads | intros a].
    apply reads_bind; [apply choose_subtitle_reads | intros s].
    apply reads_of_keeps. effects.
Qed.

Lemma first_pass_reads (e : env) (file_list : list string) :
  forall chosen_tracks, reads_per_prompt (first_pass e file_list chosen_tracks).
Proof.
  induction file_list as [| file rest IH]; intros chosen_tracks; simpl.
  - apply reads_of_keeps. effects.
  - destruct (chosen_tracks !! get_key file); [apply IH |].
    apply reads_bind; [apply resolve_tracks_reads | intros; apply IH].
Qed.

(** X4.  A run of [main] takes its answers from the front of the operator
    input, in order, at most one per prompt; what it returns unread is the
    rest.  A run that never prompts reads nothing. *)
Theorem main_reads_per_prompt (e : env) (ins : list answer) :
  (exists used,
     ins = used ++ input_of (main e ins)
     /\ (List.length used <= count is_prompt (trace_of (main e ins)))%nat)
  /\ (count is_prompt (trace_of (main e ins)) = 0%nat ->
      input_of (main e ins) = ins).
Proof.
  assert (H : reads_per_prompt (main e)).
  { unfold main. apply reads_bind.
    - apply reads_of_keeps. unfold make_output_dir, os_mkdir, sys_exit. effects.
    - intros _. apply reads_bind; [apply first_pass_reads | intros chosen_tracks].
      apply reads_of_keeps, second_pass_keeps. }
  split; [exact (H ins) |].
  intros Hnone. destruct (H ins) as (used & Hins & Hlen).
  rewrite Hnone in Hlen. destruct used; [| simpl in Hlen; lia].
  symmetry. exact Hins.
Qed.

Lemma main_reads_per_prompt_witness :
  input_of (main same_series [Some 3%Z; None]) = [Some 3%Z; None].
Proof.
  apply (proj2 (main_reads_per_prompt same_series [Some 3%Z; None])).
  reflexivity.
Defined.

(** ** The second pass *)

Lemma encode_file_encodes (e : env) (chosen_tracks : gmap string track_info)
    (file : string) (info : track_info) (ins : list answer) :
  chosen_tracks !! get_key file = Some info ->
  encodes (trace_of (encode_file e chosen_tracks file ins))
  = [ffmpeg_args file
       (get_audio_flags (audio_channels info) (audio_codec info) (audio_index info))
       (get_filter_flags (subtitle_codec info) (subtitle_index info) file)].
Proof.
  intros Hkey. unfold encode_file. rewrite Hkey.
  rewrite emit_bind_trace.
  unfold bind, try_OSError, run, emit, ret, raise.
  destruct (subprocess e _) as [msg | results]; [reflexivity |].
  cbn -[encodes ffmpeg_args get_audio_flags get_filter_flags String.append].
  destruct (returncode results =? 0)%Z; reflexivity.
Qed.

Lemma ffmpeg_args_ends (file : string) (audio filter : list string) :
  ffmpeg_args file audio filter !! 6%nat = Some file
  /\ last (ffmpeg_args file audio filter) = Some (output_path file).
Proof.
  split; [reflexivity |].
  unfold ffmpeg_args. rewrite !app_assoc. apply last_snoc.
Qed.

Lemma second_pass_encodes (e : env) (chosen_tracks : gmap string track_info)
    (file_list : list string) :
  (forall file, In file file_list -> is_Some (chosen_tracks !! get_key file)) ->
  forall ins,
    map (fun args => (args !! 6%nat, last args))
      (encodes (trace_of (second_pass e file_list chosen_tracks ins)))
    = map (fun file => (Some file, Some (output_path file))) file_list.
Proof.
  induction file_list as [| file rest IH]; intros Hall ins; [reflexivity |].
  simpl second_pass.
  destruct (Hall file (or_introl eq_refl)) as [info Hinfo].
  pose proof (encode_file_returns e chosen_tracks file ins (ex_intro _ info Hinfo))
    as Hret.
  pose proof (encode_file_encodes e chosen_tracks file info ins Hinfo) as Henc.
  destruct (encode_file e chosen_tracks file ins) as [[out ins1] tr1] eqn:Hfile.
  unfold outcome_of in Hret. simpl in Hret. subst out.
  unfold trace_of in Henc. simpl in Henc.
  rewrite (bind_trace_Ret _ _ _ _ _ _ Hfile), encodes_app, Henc.
  rewrite map_app, (IH (fun f Hf => Hall f (or_intror Hf)) ins1).
  cbn [map].
  destruct (ffmpeg_args_ends file
              (get_audio_flags (audio_channels info) (audio_codec info)
                 (audio_index info))
              (get_filter_flags (subtitle_codec info) (subtitle_index info) file))
    as [-> ->].
  reflexivity.
Qed.

(** X5.  When the output directory is there or can be made and the first
    pass returns, [main] starts the encoder exactly once per discovered
    file, in the order of the file list, each time with that file as the
    input and its output path as the last argument, whatever the earlier
    encoder runs did (non-zero exit, or not launched at all). *)
Theorem main_encodes_every_file (e : env) (ins : list answer)
    (chosen_tracks : gmap string track_info) ins1 tr1 :
  path_exists e "hardsubbed" = true \/ mkdir_error e "hardsubbed" = None ->
  first_pass e (discover e) ∅ ins = (Ret chosen_tracks, ins1, tr1) ->
  map (fun args => (args !! 6%nat, last args)) (encodes (trace_of (main e ins)))
  = map (fun file => (Some file, Some (output_path file))) (discover e).
Proof.
  intros Hdirok Hfirst.
  destruct (make_output_dir_cases e ins)
    as [(msg' & Hex' & Hmk' & _) | (_ & tr0 & Hdir & Htr0)].
  { destruct Hdirok; congruence. }
  unfold main.
  rewrite (bind_trace_Ret _ _ _ _ _ _ Hdir), (bind_trace_Ret _ _ _ _ _ _ Hfirst).
  rewrite !encodes_app.
  rewrite (encodes_none tr0 Htr0).
  pose proof (first_pass_emits e (discover e) ∅ ins) as Htr1.
  rewrite Hfirst in Htr1. unfold trace_of in Htr1. simpl in Htr1.
  rewrite (encodes_none tr1 Htr1). simpl app.
  apply second_pass_encodes.
  exact (proj2 (first_pass_resolves _ _ _ _ _ _ _ Hfirst)).
Qed.

(** Both containers of one stem, the first of which cannot be encoded. *)
Lemma main_encodes_every_file_witness :
  map (fun args => (args !! 6%nat, last args))
    (encodes (trace_of (main flaky_encoder [])))
  = [(Some "X.mkv", Some "hardsubbed/X.mp4");
     (Some "X.mp4", Some "hardsubbed/X.mp4")].
Proof.
  refine (main_encodes_every_file flaky_encoder []
            (<[get_key "X.mkv" := stereo_aac_choice]>
               (<[get_key "X.mp4" := stereo_aac_choice]> ∅))
            [] [Run (ffprobe_args "X.mkv"); Run (ffprobe_args "X.mp4")] _ _).
  - left. reflexivity.
  - vm_compute. reflexivity.
Defined.

(** X6.  An exception raised in the first pass is never caught: [main] ends
    with that exception, leaves the unread answers as the first pass left
    them, and has started no encoder. *)
Theorem first_pass_error_ends_run (e : env) (ins : list answer)
    (err : exn) ins1 tr1 :
  path_exists e "hardsubbed" = true \/ mkdir_error e "hardsubbed" = None ->
  first_pass e (discover e) ∅ ins = (Raise err, ins1, tr1) ->
  outcome_of (main e ins) = Raise err
  /\ input_of (main e ins) = ins1
  /\ encodes (trace_of (main e ins)) = []
  /\ exists tr0, trace_of (main e ins) = tr0 ++ tr1.
Proof.
  intros Hdirok Hfirst.
  destruct (make_output_dir_cases e ins)
    as [(msg' & Hex' & Hmk' & _) | (_ & tr0 & Hdir & Htr0)].
  { destruct Hdirok; congruence. }
  pose proof (first_pass_emits e (discover e) ∅ ins) as Htr1.
  rewrite Hfirst in Htr1. unfold trace_of in Htr1. simpl in Htr1.
  unfold main.
  rewrite (bind_Ret _ _ _ _ _ _ Hdir), (bind_Raise _ _ _ _ _ _ Hfirst).
  unfold outcome_of, input_of, trace_of. simpl.
  split; [reflexivity |]. split; [reflexivity |].
  split; [| eauto].
  rewrite encodes_app, (encodes_none tr0 Htr0), (encodes_none tr1 Htr1).
  reflexivity.
Qed.

Lemma first_pass_error_ends_run_witness :
  outcome_of (main probe_fails []) = Raise ValueError
  /\ input_of (main probe_fails []) = []
  /\ encodes (trace_of (main probe_fails [])) = []
  /\ exists tr0,
       trace_of (main probe_fails [])
       = tr0 ++ [Run (ffprobe_args "broken.mkv"); Stderr "probe failed with code: 1"].
Proof.
  apply (first_pass_error_ends_run probe_fails [] ValueError [] _).
  - left. reflexivity.
  - reflexivity.
Defined.

(** ** Answers at the prompt *)

Lemma list_getitem_negative (l : list json) (k : Z) :
  (k < 0)%Z ->
  list_getitem l k
  = if (k <? - Z.of_nat (List.length l))%Z then Raise IndexError
    else match l !! Z.to_nat (Z.of_nat (List.length l) + k) with
         | Some d => Ret d
         | None => Raise IndexError
         end.
Proof.
  intros Hk. unfold list_getitem.
  destruct (Z.ltb_spec k 0); [| lia].
  destruct (Z.ltb_spec k (- Z.of_nat (List.length l))).
  - destruct (Z.ltb_spec (k + Z.of_nat (List.length l)) 0); [reflexivity | lia].
  - destruct (Z.ltb_spec (k + Z.of_nat (List.length l)) 0); [lia |].
    destruct (Z.leb_spec (Z.of_nat (List.length l)) (k + Z.of_nat (List.length l)));
      [lia |].
    simpl. rewrite (Z.add_comm k). reflexivity.
Qed.

Lemma list_getitem_out_of_range (l : list json) (k : Z) :
  (Z.of_nat (List.length l) <= k \/ k < - Z.of_nat (List.length l))%Z ->
  list_getitem l k = Raise IndexError.
Proof.
  intros [Hhigh | Hlow].
  - rewrite list_getitem_nonneg by lia.
    rewrite (proj2 (lookup_ge_None l (Z.to_nat k))); [reflexivity | lia].
  - rewrite list_getitem_negative by lia.
    destruct (Z.ltb_spec k (- Z.of_nat (List.length l))); [reflexivity | lia].
Qed.

(** X7.  With two candidates or more, all with a "tags" entry, a negative
    answer [k] no smaller than minus the number of candidates selects the
    candidate counted from the end (-1 is the last one): when that
    candidate has a codec name (and, for audio, a channel count), these are
    returned together with the negative number itself as the stream index,
    and the answer is consumed. *)
Theorem negative_answer_counts_from_end (key : string) (streams : list json)
    (k : Z) (rest : list answer) (d : json) :
  (2 <= List.length streams)%nat ->
  Forall has_tags streams ->
  (- Z.of_nat (List.length streams) <= k < 0)%Z ->
  streams !! Z.to_nat (Z.of_nat (List.length streams) + k) = Some d ->
  (forall ch cn,
     subscript d "channels" = Ret ch ->
     subscript d "codec_name" = Ret cn ->
     outcome_of (choose_audio key streams (Some k :: rest)) = Ret (k, ch, cn)
     /\ input_of (choose_audio key streams (Some k :: rest)) = rest)
  /\ (forall cn,
        subscript d "codec_name" = Ret cn ->
        outcome_of (choose_subtitle key streams (Some k :: rest)) = Ret (k, cn)
        /\ input_of (choose_subtitle key streams (Some k :: rest)) = rest).
Proof.
  intros Hlen Htags Hk Hd.
  assert (Hget : list_getitem streams k = Ret d).
  { rewrite list_getitem_negative by lia.
    destruct (Z.ltb_spec k (- Z.of_nat (List.length streams))); [lia |].
    rewrite Hd. reflexivity. }
  split.
  - intros ch cn Hch Hcn.
    destruct (choose_audio_prompted key streams k rest d ch cn
                Hlen Htags Hget Hch Hcn) as (tr & -> & _).
    split; reflexivity.
  - intros cn Hcn.
    destruct (choose_subtitle_prompted key streams k rest d cn
                Hlen Htags Hget Hcn) as (tr & -> & _).
    split; reflexivity.
Qed.

Lemma negative_answer_counts_from_end_witness :
  outcome_of (choose_audio "Show" [stream_flac; stream_aac] [Some (-1)%Z])
  = Ret ((-1)%Z, JInt 2, JStr "aac").
Proof.
  refine (proj1 (proj1 (negative_answer_counts_from_end "Show"
                          [stream_flac; stream_aac] (-1) [] stream_aac _ _ _ _)
                   (JInt 2) (JStr "aac") _ _));
    first [ reflexivity | simpl; lia | cbv; lia
          | repeat constructor; eexists; reflexivity ].
Defined.

(** X8.  With two candidates or more (whose tags can be listed), an answer
    that is no valid subscript ends resolution at once, after the one
    prompt: an integer beyond either end of the candidate list raises
    IndexError, a line that is no integer raises ValueError, and the end of
    the input raises EOFError.  The answer read is consumed. *)
Theorem bad_answer_raises (key : string) (streams : list json) (rest : list answer) :
  (2 <= List.length streams)%nat ->
  Forall has_tags streams ->
  (forall k,
     (Z.of_nat (List.length streams) <= k \/ k < - Z.of_nat (List.length streams))%Z ->
     (outcome_of (choose_audio key streams (Some k :: rest)) = Raise IndexError
      /\ input_of (choose_audio key streams (Some k :: rest)) = rest)
     /\ (outcome_of (choose_subtitle key streams (Some k :: rest)) = Raise IndexError
         /\ input_of (choose_subtitle key streams (Some k :: rest)) = rest))
  /\ (outcome_of (choose_audio key streams (None :: rest)) = Raise ValueError
      /\ input_of (choose_audio key streams (None :: rest)) = rest)
  /\ (outcome_of (choose_subtitle key streams (None :: rest)) = Raise ValueError
      /\ input_of (choose_subtitle key streams (None :: rest)) = rest)
  /\ outcome_of (choose_audio key streams []) = Raise EOFError
  /\ outcome_of (choose_subtitle key streams []) = Raise EOFError.
Proof.
  intros Hlen Htags.
  assert (Hprint : forall ins, exists lines,
            print_stream_info streams ins = (Ret tt, ins, lines)).
  { intros ins. destruct (print_stream_info_result streams ins Htags)
      as (lines & H & _). eauto. }
  split; [| split; [| split; [| split]]].
  - intros k Hk. pose proof (list_getitem_out_of_range streams k Hk) as Hget.
    destruct (Hprint (Some k :: rest)) as (lines & Hp).
    unfold choose_audio, choose_subtitle. rewrite (long_list_test _ Hlen).
    unfold bind, emit, lift, input_int, ret. rewrite Hp, Hget.
    repeat split; reflexivity.
  - destruct (Hprint (None :: rest)) as (lines & Hp).
    unfold choose_audio. rewrite (long_list_test _ Hlen).
    unfold bind, emit, lift, input_int, ret. rewrite Hp. split; reflexivity.
  - destruct (Hprint (None :: rest)) as (lines & Hp).
    unfold choose_subtitle. rewrite (long_list_test _ Hlen).
    unfold bind, emit, lift, input_int, ret. rewrite Hp. split; reflexivity.
  - destruct (Hprint []) as (lines & Hp).
    unfold choose_audio. rewrite (long_list_test _ Hlen).
    unfold bind, emit, lift, input_int, ret. rewrite Hp. reflexivity.
  - destruct (Hprint []) as (lines & Hp).
    unfold choose_subtitle. rewrite (long_list_test _ Hlen).
    unfold bind, emit, lift, input_int, ret. rewrite Hp. reflexivity.
Qed.

Lemma bad_answer_raises_witness :
  outcome_of (choose_audio "Show" [stream_flac; stream_aac] [Some 2%Z; Some 0%Z])
  = Raise IndexError
  /\ input_of (choose_audio "Show" [stream_flac; stream_aac] [Some 2%Z; Some 0%Z])
     = [Some 0%Z].
Proof.
  refine (proj1 (proj1 (bad_answer_raises "Show" [stream_flac; stream_aac]
                          [Some 0%Z] _ _) 2%Z _)).
  - simpl; lia.
  - repeat constructor; eexists; reflexivity.
  - left. simpl. lia.
Defined.

(** ** Listing the candidates *)

Lemma print_stream_info_from_lines (streams : list json) :
  Forall has_tags streams ->
  forall start ins, exists lines,
    print_stream_info_from start streams ins = (Ret tt, ins, lines)
    /\ List.length lines = List.length streams
    /\ forall (i : nat) d items,
         streams !! i = Some d ->
         subscript d "tags" = Ret (JDict items) ->
         lines !! i
         = Some (StdoutStream (start + Z.of_nat i)
                   (default (JStr "No Title") (assoc "title" items))
                   (default (JStr "Unknown") (assoc "language" items))).
Proof.
  induction 1 as [| stream rest [items0 Htags] _ IH]; intros start ins.
  - exists []. split; [reflexivity |]. split; [reflexivity |].
    intros i d items Hi. rewrite lookup_nil in Hi. discriminate.
  - destruct (IH (start + 1)%Z ins) as (lines & Hrest & Hlen & Hline).
    exists (StdoutStream start
              (default (JStr "No Title") (assoc "title" items0))
              (default (JStr "Unknown") (assoc "language" items0)) :: lines).
    split; [| split].
    + simpl. unfold bind, lift, emit. rewrite Htags. simpl.
      destruct (assoc "title" items0), (assoc "language" items0);
        rewrite Hrest; reflexivity.
    + simpl. rewrite Hlen. reflexivity.
    + intros [| i] d items Hi Hd; simpl in Hi.
      * injection Hi as <-. rewrite Htags in Hd. injection Hd as <-.
        simpl. rewrite Z.add_0_r. reflexivity.
      * change ((StdoutStream start
                   (default (JStr "No Title") (assoc "title" items0))
                   (default (JStr "Unknown") (assoc "language" items0))
                 :: lines) !! S i) with (lines !! i).
        rewrite (Hline i d items Hi Hd). do 2 f_equal. lia.
Qed.

(** X9.  The number printed beside a candidate is the answer that selects
    it.  With two candidates or more, all with tags, the listing has one
    line per candidate in probe order; line [i] shows the number [i], the
    title (or "No Title") and the language (or "Unknown") of candidate [i];
    and the answer [i] returns index [i] with the codec and channels of
    that same candidate, after the heading, the listing and one prompt. *)
Theorem listed_number_selects (key : string) (audio_streams : list json)
    (i : nat) (d : json) (items : list (string * json)) (ch cn : json)
    (rest : list answer) :
  (2 <= List.length audio_streams)%nat ->
  Forall has_tags audio_streams ->
  audio_streams !! i = Some d ->
  subscript d "tags" = Ret (JDict items) ->
  subscript d "channels" = Ret ch ->
  subscript d "codec_name" = Ret cn ->
  exists lines,
    choose_audio key audio_streams (Some (Z.of_nat i) :: rest)
    = (Ret (Z.of_nat i, ch, cn), rest,
       Stdout ("Please choose which audio stream to use for " +:+ key +:+ ":")
       :: lines ++ [Prompt "Choice: "])
    /\ List.length lines = List.length audio_streams
    /\ lines !! i
       = Some (StdoutStream (Z.of_nat i)
                 (default (JStr "No Title") (assoc "title" items))
                 (default (JStr "Unknown") (assoc "language" items))).
Proof.
  intros Hlen Htags Hi Hd Hch Hcn.
  destruct (print_stream_info_from_lines audio_streams Htags 0%Z
              (Some (Z.of_nat i) :: rest)) as (lines & Hprint & Hlines & Hline).
  exists lines. split; [| split; [exact Hlines | exact (Hline i d items Hi Hd)]].
  assert (Hget : list_getitem audio_streams (Z.of_nat i) = Ret d).
  { rewrite list_getitem_nonneg by lia. rewrite Nat2Z.id, Hi. reflexivity. }
  unfold choose_audio, print_stream_info. rewrite (long_list_test _ Hlen).
  unfold bind, emit, lift, input_int, ret.
  rewrite Hprint, Hget, Hch, Hcn. rewrite !app_nil_r. reflexivity.
Qed.

Lemma listed_number_selects_witness :
  exists lines,
    choose_audio "Show" [stream_flac; stream_aac] [Some 1%Z]
    = (Ret (1%Z, JInt 2, JStr "aac"), [],
       Stdout "Please choose which audio stream to use for Show:"
       :: lines ++ [Prompt "Choice: "])
    /\ List.length lines = 2%nat
    /\ lines !! 1%nat = Some (StdoutStream 1 (JStr "No Title") (JStr "eng")).
Proof.
  apply (listed_number_selects "Show" [stream_flac; stream_aac] 1 stream_aac
           [("language", JStr "eng")] (JInt 2) (JStr "aac") []);
    first [ reflexivity | simpl; lia | repeat constructor; eexists; reflexivity ].
Defined.

(** X10.  With two candidates or more, a candidate that has no "tags" entry
    ends resolution with KeyError "tags" while the candidates are being
    listed: the candidates before it are listed, no prompt appears and no
    answer is read. *)
Theorem untagged_candidate_raises (key : string) (before after : list json)
    (items : list (string * json)) (ins : list answer) :
  (1 <= List.length before + List.length after)%nat ->
  Forall has_tags before ->
  assoc "tags" items = None ->
  (exists lines,
     choose_audio key (before ++ JDict items :: after) ins
     = (Raise (KeyError "tags"), ins,
        Stdout ("Please choose which audio stream to use for " +:+ key +:+ ":")
        :: lines)
     /\ List.length lines = List.length before
     /\ count is_prompt lines = 0%nat)
  /\ (exists lines,
        choose_subtitle key (before ++ JDict items :: after) ins
        = (Raise (KeyError "tags"), ins,
           Stdout ("Please choose which subtitle stream to use for " +:+ key +:+ ":")
           :: lines)
        /\ List.length lines = List.length before
        /\ count is_prompt lines = 0%nat).
Proof.
  intros Hlen Hbefore Hitems.
  destruct (print_stream_info_from_missing_tags before after items
              Hbefore Hitems 0%Z ins) as (lines & Hprint & Hlines & Hcount).
  assert (Hmany : (1 <? List.length (before ++ JDict items :: after))%nat = true).
  { apply Nat.ltb_lt. rewrite length_app. simpl. lia. }
  split; exists lines; (split; [| split; assumption]).
  - unfold choose_audio, print_stream_info. rewrite Hmany.
    unfold bind, emit. rewrite Hprint. reflexivity.
  - unfold choose_subtitle, print_stream_info. rewrite Hmany.
    unfold bind, emit. rewrite Hprint. reflexivity.
Qed.

Lemma untagged_candidate_raises_witness :
  exists lines,
    choose_audio "Show" [stream_flac; stream_untagged; stream_aac] [Some 0%Z]
    = (Raise (KeyError "tags"), [Some 0%Z],
       Stdout "Please choose which audio stream to use for Show:" :: lines)
    /\ List.length lines = 1%nat
    /\ count is_prompt lines = 0%nat.
Proof.
  refine (proj1 (untagged_candidate_raises "Show" [stream_flac] [stream_aac]
                   [("codec_name", JStr "ac3"); ("codec_type", JStr "audio");
                    ("channels", JInt 6)] [Some 0%Z] _ _ _)).
  - simpl; lia.
  - repeat constructor; eexists; reflexivity.
  - reflexivity.
Defined.

(** ** Series keys *)

Lemma get_key_cases (file : string) :
  (re_match key_pattern file = None /\ get_key file = file)
  \/ (exists group title number rest,
        re_match key_pattern file = Some [group; title; number]
        /\ episode_name file group title number rest
        /\ get_key file = title).
Proof.
  unfold get_key.
  destruct (re_match key_pattern file) as [groups |] eqn:Hre; [right | left; auto].
  pose proof (re_match_sound _ _ _ Hre) as Hm.
  apply matches_key_pattern in Hm as (g & t & d & rest & -> & Hname).
  exists g, t, d, rest. auto.
Qed.

(** X11.  The key is a piece of the filename: it occurs in it, it is empty
    only for the empty filename, and a filename that does not begin with
    an opening bracket is its own key. *)
Theorem get_key_piece_of_name (file : string) :
  occurs (get_key file) file
  /\ (get_key file = EmptyString -> file = EmptyString)
  /\ (forall c s, file = String c s -> c <> "["%char -> get_key file = file).
Proof.
  destruct (get_key_cases file)
    as [[_ ->] | (g & t & d & rest & _ & Hname & ->)].
  - split; [| split; auto].
    exists EmptyString, EmptyString. simpl. rewrite append_nil_r. reflexivity.
  - destruct Hname as (Hfile & _ & _ & Ht & _).
    split; [| split].
    + exists ("[" +:+ g +:+ "] "), (" - " +:+ d +:+ " " +:+ rest).
      rewrite Hfile, !append_assoc. reflexivity.
    + intros ->. contradiction.
    + intros c s -> Hc. simpl in Hfile. injection Hfile as -> _. contradiction.
Qed.

Lemma get_key_piece_of_name_witness :
  get_key "notes.txt" = "notes.txt".
Proof.
  refine (proj2 (proj2 (get_key_piece_of_name "notes.txt")) "n"%char "otes.txt" _ _);
    [reflexivity | discriminate].
Defined.

Lemma append_longer (u u' v v' : string) :
  (String.length u < String.length u')%nat ->
  u +:+ v = u' +:+ v' ->
  exists c w, u' = u +:+ String c w /\ v = String c w +:+ v'.
Proof.
  revert u'. induction u as [| c u IH]; intros [| c' u'] Hlen H;
    simpl in *; try lia.
  - subst v. eauto.
  - injection H as -> H.
    destruct (IH u' ltac:(lia) H) as (c & w & -> & ->). eauto.
Qed.

Lemma is_decimal_from_zero (n : N) : is_decimal n = true -> (48 <= n)%N.
Proof.
  unfold is_decimal. rewrite existsb_exists. intros (r & Hr & H).
  assert (Hall : forallb (fun r => (48 <=? fst r)%N) decimal_digits = true)
    by reflexivity.
  rewrite forallb_forall in Hall. specialize (Hall r Hr).
  apply andb_true_iff in H as [H _].
  apply N.leb_le in Hall, H. lia.
Qed.

(** No byte of a decimal digit is below the digit zero: an ASCII digit is
    one byte from 48 on, any other takes bytes from 128 on. *)
Lemma decimal_char_bytes (t : string) :
  atom_char Digit t ->
  Forall (fun c => (48 <= byte_value c)%N) (list_ascii_of_string t).
Proof.
  unfold atom_char, atom_width.
  destruct (code_point_at t) as [[cp w] |] eqn:Hcp; [| discriminate].
  destruct (is_decimal cp) eqn:Hd; [| discriminate].
  intros H. injection H as Hw. apply is_decimal_from_zero in Hd.
  unfold code_point_at in Hcp.
  destruct t as [| b1 [| b2 [| b3 [| b4 [| b5 t]]]]]; [discriminate | ..];
    repeat match type of Hcp with
           | context [if ?c then _ else _] => destruct c eqn:?
           end;
    try discriminate; injection Hcp as <- <-; try discriminate Hw;
    unfold continuation in *;
    repeat match goal with
           | H : _ && _ = true |- _ => apply andb_true_iff in H as [? ?]
           | H : (_ <? _)%N = false |- _ => apply N.ltb_ge in H
           | H : (_ <=? _)%N = true |- _ => apply N.leb_le in H
           end;
    simpl; repeat constructor; lia.
Qed.

Lemma all_digits_bytes (d : string) :
  all_digits d ->
  Forall (fun c => (48 <= byte_value c)%N) (list_ascii_of_string d).
Proof.
  induction 1 as [| t u Ht _ IH]; [constructor |].
  rewrite list_ascii_of_string_app. apply Forall_app.
  split; [exact (decimal_char_bytes _ Ht) | exact IH].
Qed.

Lemma digits_before_separator (d rest w z : string) :
  all_digits d ->
  d +:+ " " +:+ rest = w +:+ " - " +:+ z ->
  occurs " - " (" " +:+ rest).
Proof.
  intros Hd. apply all_digits_bytes in Hd.
  revert w. induction d as [| c d IH]; intros w H.
  - exists w, z. exact H.
  - simpl in Hd. inversion Hd as [| ? ? Hc Hd']; subst.
    destruct w as [| c' w]; simpl in H.
    + injection H as -> _. cbv in Hc. destruct Hc. reflexivity.
    + injection H as _ H. exact (IH Hd' w H).
Qed.

Lemma prefix_append (pat v : string) : String.prefix pat (pat +:+ v) = true.
Proof.
  induction pat as [| c pat IH]; simpl; [destruct v; reflexivity |].
  destruct (ascii_dec c c); [exact IH | contradiction].
Qed.

Lemma occurs_contains (pat s : string) : occurs pat s -> contains pat s = true.
Proof.
  assert (Hunfold : forall s',
            contains pat s'
            = String.prefix pat s'
              || match s' with
                 | String _ s'' => contains pat s''
                 | EmptyString => false
                 end) by (intros []; reflexivity).
  intros (u & v & ->). induction u as [| c u IH].
  - rewrite Hunfold. simpl append. rewrite prefix_append. reflexivity.
  - simpl append. rewrite Hunfold. cbv iota. rewrite IH. apply orb_true_r.
Qed.

(** X12.  A filename read as [[group] Title - NN rest] has the key Title
    whenever no "] " occurs after the group and no " - " occurs from the
    blank after the number on: then no other reading has a longer group or
    title.  Episodes of a series named this way share their key. *)
Theorem get_key_unambiguous (file group title number rest : string) :
  episode_name file group title number rest ->
  contains "] " (title +:+ " - " +:+ number +:+ " " +:+ rest) = false ->
  contains " - " (" " +:+ rest) = false ->
  get_key file = title.
Proof.
  intros Hname Hgroup' Htitle'.
  assert (Hgroup : ~ occurs "] " (title +:+ " - " +:+ number +:+ " " +:+ rest))
    by (intros H; apply occurs_contains in H; congruence).
  assert (Htitle : ~ occurs " - " (" " +:+ rest))
    by (intros H; apply occurs_contains in H; congruence).
  clear Hgroup' Htitle'.
  destruct (get_key_cases file)
    as [[Hnone _] | (g1 & t1 & d1 & r1 & Hre & Hname1 & ->)].
  { exfalso. apply (re_match_complete key_pattern file [group; title; number]);
      [| exact Hnone].
    apply matches_key_pattern. eauto 6. }
  destruct (key_pattern_longest _ _ _ _ _ _ _ _ Hre Hname) as [Hlt | [-> Hle]].
  - exfalso. apply Hgroup.
    destruct Hname as (Hfile & _). destruct Hname1 as (Hfile1 & _).
    rewrite Hfile in Hfile1. simpl in Hfile1. injection Hfile1 as Hfile1.
    destruct (append_longer _ _ _ _ Hlt Hfile1) as (c & w & _ & Hw).
    simpl in Hw. injection Hw as <- Hw.
    destruct w as [| c2 w]; simpl in Hw; [discriminate |].
    injection Hw as <- Hw.
    eexists w, _. exact Hw.
  - destruct Hname as (Hfile & _ & _ & _ & _ & Hd & Hdd).
    destruct Hname1 as (Hfile1 & _).
    rewrite Hfile in Hfile1. simpl in Hfile1. injection Hfile1 as Hfile1.
    apply String.app_inj in Hfile1. simpl in Hfile1.
    injection Hfile1 as Hfile1.
    destruct (Nat.eq_dec (String.length title) (String.length t1)) as [Heq | Hne].
    { destruct (append_same_length _ _ _ _ Heq Hfile1) as [-> _]. reflexivity. }
    exfalso. apply Htitle.
    destruct (append_longer title t1 _ _ ltac:(lia) Hfile1) as (c & w & _ & Hw).
    simpl in Hw. injection Hw as <- Hw.
    destruct w as [| c2 w]; simpl in Hw; [discriminate |].
    injection Hw as <- Hw.
    destruct w as [| c3 w]; simpl in Hw.
    { destruct number as [| n0 number]; [contradiction |].
      simpl in Hw. injection Hw as -> _.
      apply all_digits_bytes in Hdd. simpl in Hdd.
      inversion Hdd as [| ? ? Hc _]. cbv in Hc. destruct Hc. reflexivity. }
    injection Hw as <- Hw.
    exact (digits_before_separator number rest w _ Hdd Hw).
Qed.

Lemma get_key_unambiguous_witness :
  get_key "[G] Show - 01 [720p].mkv" = "Show"
  /\ get_key "[G] Show - 02 [720p].mkv" = "Show".
Proof.
  split.
  - apply (get_key_unambiguous _ "G" "Show" "01" "[720p].mkv").
    + episode_reading.
    + reflexivity.
    + reflexivity.
  - apply (get_key_unambiguous _ "G" "Show" "02" "[720p].mkv").
    + episode_reading.
    + reflexivity.
    + reflexivity.
Defined.

(** ** Discovery and output paths *)

Lemma ends_with_split (suffix s : string) :
  ends_with suffix s = true -> exists x, s = x +:+ suffix.
Proof.
  induction s as [| c s IH]; intros H; cbn [ends_with] in H.
  - rewrite orb_false_r in H. apply String.eqb_eq in H. subst suffix.
    exists EmptyString. reflexivity.
  - apply orb_true_iff in H as [H | H].
    + apply String.eqb_eq in H. subst suffix. exists EmptyString. reflexivity.
    + destruct (IH H) as (x & ->). exists (String c x). reflexivity.
Qed.

Lemma In_discover_iff (e : env) (file : string) :
  In file (discover e) <->
  In file (listdir e) /\ is_hidden file = false
  /\ (ends_with ".mkv" file = true \/ ends_with ".mp4" file = true).
Proof.
  unfold discover, glob.
  rewrite In_sorted, in_app_iff, !filter_In, !andb_true_iff, !negb_true_iff.
  tauto.
Qed.






(** X14.  Two discovered files get the same output path only when they are
    the same file or the two containers of one stem: files with different
    stems never write to the same output. *)
Theorem output_collision_only_same_stem (e : env) (file1 file2 : string) :
  (forall name, In name (listdir e) -> no_slash name) ->
  In file1 (discover e) ->
  In file2 (discover e) ->
  output_path file1 = output_path file2 ->
  exists stem,
    (file1 = stem +:+ ".mkv" \/ file1 = stem +:+ ".mp4")
    /\ (file2 = stem +:+ ".mkv" \/ file2 = stem +:+ ".mp4").
Proof.
  intros Hnames H1 H2 Hout.
  assert (Hstem : forall file,
            In file (discover e) ->
            exists stem,
              (file = stem +:+ ".mkv" \/ file = stem +:+ ".mp4")
              /\ output_path file = "hardsubbed/" +:+ stem +:+ ".mp4").
  { intros file Hin. apply In_discover_iff in Hin as (Hin & Hhid & [Hext | Hext]);
      apply ends_with_split in Hext as (stem & ->); exists stem;
      (split; [auto |]); unfold output_path; rewrite splitext_stem; auto. }
  destruct (Hstem file1 H1) as (stem1 & Hf1 & Ho1).
  destruct (Hstem file2 H2) as (stem2 & Hf2 & Ho2).
  rewrite Ho1, Ho2 in Hout. apply String.app_inj in Hout.
  assert (Hlen : String.length stem1 = String.length stem2).
  { apply (f_equal String.length) in Hout. rewrite !length_append in Hout.
    simpl in Hout. lia. }
  destruct (append_same_length _ _ _ _ Hlen Hout) as [-> _].
  exists stem2. auto.
Qed.

Lemma output_collision_only_same_stem_witness :
  exists stem,
    ("X.mkv" = stem +:+ ".mkv" \/ "X.mkv" = stem +:+ ".mp4")
    /\ ("X.mp4" = stem +:+ ".mkv" \/ "X.mp4" = stem +:+ ".mp4").
Proof.
  apply (output_collision_only_same_stem two_containers "X.mkv" "X.mp4").
  - intros name [<- | [<- | []]]; repeat constructor; discriminate.
  - vm_compute. tauto.
  - vm_compute. tauto.
  - reflexivity.
Defined.

(** ** Unattended series and per-file reports *)

(** X15.  However resolution of a series ends, it prompts at most once for
    each kind that has two candidates or more and never for a kind with
    fewer; with at most one audio and at most one subtitle candidate it
    prompts for nothing and reads no answer, whatever the descriptors hold. *)
Theorem prompts_only_for_several_candidates (key : string)
    (audio_streams subtitle_streams : list json) (ins : list answer) :
  (count is_prompt (trace_of (choose_tracks key audio_streams subtitle_streams ins))
   <= (if (1 <? List.length audio_streams)%nat then 1 else 0)
      + (if (1 <? List.length subtitle_streams)%nat then 1 else 0))%nat
  /\ ((List.length audio_streams <= 1)%nat ->
      (List.length subtitle_streams <= 1)%nat ->
      count is_prompt
        (trace_of (choose_tracks key audio_streams subtitle_streams ins)) = 0%nat
      /\ input_of (choose_tracks key audio_streams subtitle_streams ins) = ins).
Proof.
  pose proof (choose_tracks_prompts key audio_streams subtitle_streams ins) as Hle.
  split; [exact Hle |].
  intros Ha Hs.
  destruct (Nat.ltb_spec 1 (List.length audio_streams)); [lia |].
  destruct (Nat.ltb_spec 1 (List.length subtitle_streams)); [lia |].
  assert (Hzero : count is_prompt
            (trace_of (choose_tracks key audio_streams subtitle_streams ins)) = 0%nat)
    by (simpl in Hle; lia).
  split; [exact Hzero |].
  assert (Hreads : reads_per_prompt (choose_tracks key audio_streams subtitle_streams)).
  { unfold choose_tracks.
    apply reads_bind; [apply choose_audio_reads | intros a].
    apply reads_bind; [apply choose_subtitle_reads | intros s].
    apply reads_of_keeps. effects. }
  destruct (Hreads ins) as (used & Hins & Hlen).
  rewrite Hzero in Hlen. destruct used; [| simpl in Hlen; lia].
  symmetry. exact Hins.
Qed.

Lemma prompts_only_for_several_candidates_witness :
  count is_prompt
    (trace_of (choose_tracks "Show" [stream_untagged] [] [Some 5%Z])) = 0%nat
  /\ input_of (choose_tracks "Show" [stream_untagged] [] [Some 5%Z]) = [Some 5%Z].
Proof.
  apply (proj2 (prompts_only_for_several_candidates "Show" [stream_untagged] []
                  [Some 5%Z])); simpl; lia.
Defined.

(** X16.  What one encode reports once its key is chosen: the "Encoding"
    line and the encoder invocation, then, when the encoder cannot be
    launched, the error and "skipping file" on stderr and no "Done"; when
    it ran, "Done" on stdout, preceded on stderr by the invocation when its
    exit status is not 0.  In every case the loop goes on. *)
Theorem encode_file_reports (e : env) (chosen_tracks : gmap string track_info)
    (file : string) (info : track_info) (ins : list answer) :
  chosen_tracks !! get_key file = Some info ->
  let args :=
    ffmpeg_args file
      (get_audio_flags (audio_channels info) (audio_codec info) (audio_index info))
      (get_filter_flags (subtitle_codec info) (subtitle_index info) file) in
  encode_file e chosen_tracks file ins
  = (Ret tt, ins,
     [Stdout ("Encoding " +:+ file +:+ "..."); Run args]
     ++ match subprocess e args with
        | inl msg => [Stderr msg; Stderr ("skipping file" +:+ nl)]
        | inr results =>
            (if (returncode results =? 0)%Z then [] else [StderrInvocation args])
            ++ [Stdout ("Done" +:+ nl)]
        end).
Proof.
  intros Hkey args. unfold encode_file. rewrite Hkey.
  unfold bind, try_OSError, run, emit, ret, raise.
  fold args. destruct (subprocess e args) as [msg | results]; [reflexivity |].
  cbn -[args String.append].
  destruct (returncode results =? 0)%Z; reflexivity.
Qed.

Lemma encode_file_reports_witness :
  encode_file flaky_encoder (<[get_key "X.mkv" := stereo_aac_choice]> ∅)
    "X.mkv" []
  = (Ret tt, [],
     [Stdout "Encoding X.mkv...";
      Run (ffmpeg_args "X.mkv" (reencode_flags 0)
             (get_filter_flags (JStr "none") (-1) "X.mkv"));
      StderrInvocation
        (ffmpeg_args "X.mkv" (reencode_flags 0)
           (get_filter_flags (JStr "none") (-1) "X.mkv"));
      Stdout ("Done" +:+ nl)]).
Proof.
  apply (encode_file_reports flaky_encoder
           (<[get_key "X.mkv" := stereo_aac_choice]> ∅) "X.mkv"
           stereo_aac_choice []).
  apply lookup_insert_eq.
Defined.
